(** * Introduction-to-RL: tabular Q-learning and policy iteration

    A shallow embedding of the two notebooks of the repository:

    - [Hands-on/Tabular_Q-Learning_Full.ipynb]: the class [TabularQLearning]
      ([__init__], [plan], [on_episode_start], [on_step_taken],
      [on_episode_end]);
    - the dynamic-programming exercise notebook: [q_value],
      [policy_evaluation], [policy_improvement], [policy_iteration].

    Python statements are written in a state-and-exception monad over the
    objects they mutate; [while True] loops take a fuel argument and
    answer [OutOfFuel] while the loop is still running. *)

From Stdlib Require Import ZArith QArith Qcanon Qcabs Ring Lia.
From Stdlib Require PrimFloat SpecFloat FloatOps.
From stdpp Require Import base list numbers.

(** ** Python numbers

    The notebooks compute with Python floats and NumPy [float64] entries.
    The embedding is parametric in that arithmetic: a carrier with the
    operations the code applies.  [truediv] is Python's [/], which raises
    [ZeroDivisionError] on a zero divisor ([None]); [fpow] is the builtin
    [pow], [None] where it yields no float (it raises [ZeroDivisionError] or
    [OverflowError], both [ArithmeticError]s, or leaves the reals).
    [float_lit m k] is the literal [m * 10^-k].  [flt] is [<] on ordered
    numbers; not-a-number values are outside the model. *)
Class PyFloat := {
  num : Type;
  of_int : Z → num;
  float_lit : Z → nat → num;
  fadd : num → num → num;
  fsub : num → num → num;
  fmul : num → num → num;
  fabs : num → num;
  flt : num → num → bool;
  truediv : num → num → option num;
  fpow : num → num → option num;
}.

Declare Scope num_scope.
Delimit Scope num_scope with num.
Notation "0" := (of_int 0) : num_scope.
Notation "1" := (of_int 1) : num_scope.
Infix "+" := fadd : num_scope.
Infix "-" := fsub : num_scope.
Infix "*" := fmul : num_scope.

(** ** Exceptions, outcomes and the state monad *)

Inductive exn := IndexError | ValueError | ZeroDivisionError | ArithmeticError.

(** What running a statement gives: it returns a value, raises, or (for a
    loop run with too little fuel) is still running. *)
Inductive outcome (A : Type) :=
  | Return (a : A)
  | Raise (e : exn)
  | OutOfFuel.
Arguments Return {A} a.
Arguments Raise {A} e.
Arguments OutOfFuel {A}.

(** A computation over a mutable store [S]: the store after the run is
    always there, also when the run raised (Python keeps the assignments made
    before the exception). *)
Definition Py (S A : Type) : Type := S → S * outcome A.

Global Instance Py_ret {S} : MRet (Py S) := λ A a s, (s, Return a).

Global Instance Py_bind {S} : MBind (Py S) := λ A B k m s,
  match m s with
  | (s', Return a) => k a s'
  | (s', Raise e) => (s', Raise e)
  | (s', OutOfFuel) => (s', OutOfFuel)
  end.

Definition ret {S A} (a : A) : Py S A := mret a.
Definition lift {S A} (o : outcome A) : Py S A := λ s, (s, o).
Definition gets {S A} (f : S → A) : Py S A := λ s, (s, Return (f s)).
Definition modify {S} (f : S → S) : Py S unit := λ s, (f s, Return tt).

(** Run a computation on a component of the store. *)
Definition zoom {S T A} (rd : S → T) (wr : T → S → S) (m : Py T A) : Py S A :=
  λ s, let (t', o) := m (rd s) in (wr t' s, o).

(** A computation that only reads the store, and of it only [view]. *)
Definition read_only {S B A} (view : S → B) (m : Py S A) : Prop :=
  ∀ s, (m s).1 = s ∧ ∀ s', view s' = view s → (m s').2 = (m s).2.

(** [for x in xs: body x] *)
Fixpoint for_ {S A} (xs : list A) (body : A → Py S unit) : Py S unit :=
  match xs with
  | [] => ret tt
  | x :: xs' => body x ;; for_ xs' body
  end.

(** A value that may be missing, as the exception [e]. *)
Definition or_raise {A} (e : exn) (o : option A) : outcome A :=
  match o with
  | Some a => Return a
  | None => Raise e
  end.

(** ** NumPy arrays

    A two-dimensional array is its shape and its rows.  States and actions
    are the environment's indices (non-negative), so indices are naturals;
    an index outside the array raises [IndexError]. *)
Record ndarray (A : Type) := mk_ndarray {
  shape : nat * nat;
  data : list (list A);
}.
Arguments mk_ndarray {A} shape data.
Arguments shape {A} _.
Arguments data {A} _.

(** [a[i]] *)
Definition getitem {A} (a : ndarray A) (i : nat) : outcome (list A) :=
  or_raise IndexError (data a !! i).

(** [a[i, j]] *)
Definition getitem2 {A} (a : ndarray A) (ij : nat * nat) : outcome A :=
  match data a !! ij.1 with
  | Some row => or_raise IndexError (row !! ij.2)
  | None => Raise IndexError
  end.

(** [a[i, j] = v] *)
Definition setitem2 {A} (a : ndarray A) (ij : nat * nat) (v : A)
  : outcome (ndarray A) :=
  match data a !! ij.1 with
  | Some row =>
      match row !! ij.2 with
      | Some _ =>
          Return (mk_ndarray (shape a) (<[ij.1 := <[ij.2 := v]> row]> (data a)))
      | None => Raise IndexError
      end
  | None => Raise IndexError
  end.

(** An array as NumPy builds it: the rows agree with the shape. *)
Definition well_shaped {A} (a : ndarray A) : Prop :=
  length (data a) = (shape a).1 ∧
  Forall (λ row, length row = (shape a).2) (data a).

Module np.

(** [np.zeros(shape, dtype)]; [zero] is the dtype's zero. *)
Definition zeros {A} (zero : A) (shp : nat * nat) : ndarray A :=
  mk_ndarray shp (replicate shp.1 (replicate shp.2 zero)).

(** [np.copy(a)]: values are immutable here, the copy is the value. *)
Definition copy {A} (a : ndarray A) : ndarray A := a.

Section Float.
Context `{F : PyFloat}.

(** The larger of two numbers, the reduction step of [np.max]. *)
Definition maximum (m y : num) : num := if flt m y then y else m.

(** [np.max] of a sequence; an empty one raises [ValueError]. *)
Definition max (l : list num) : outcome num :=
  match l with
  | [] => Raise ValueError
  | x :: xs => Return (foldl maximum x xs)
  end.

(** Index of the first greatest entry, scanning from index [k] with the
    best so far at index [bi] with value [bv]. *)
Fixpoint argmax_from (bi : nat) (bv : num) (k : nat) (l : list num) : nat :=
  match l with
  | [] => bi
  | y :: ys =>
      if flt bv y then argmax_from k y (S k) ys
      else argmax_from bi bv (S k) ys
  end.

(** [np.argmax]: the first occurrence of the maximum; an empty sequence
    raises [ValueError]. *)
Definition argmax (l : list num) : outcome nat :=
  match l with
  | [] => Raise ValueError
  | x :: xs => Return (argmax_from 0 x 1 xs)
  end.

(** [np.abs(a - b)] on arrays of one shape. *)
Definition abs_diff (a b : ndarray num) : ndarray num :=
  mk_ndarray (shape a)
    (zip_with (zip_with (λ x y, fabs (fsub x y))) (data a) (data b)).

(** [np.max] of a two-dimensional array: over all its entries. *)
Definition max2 (a : ndarray num) : outcome num := max (concat (data a)).

End Float.
End np.

(** ** Tabular Q-learning ([Hands-on/Tabular_Q-Learning_Full.ipynb]) *)

Section QLearning.
Context `{F : PyFloat}.

(** humblerl's transition tuple. *)
Record Transition := {
  state : nat;
  action : nat;
  reward : num;
  next_state : nat;
  is_terminal : bool;
}.

(** The attributes of a [TabularQLearning] object. *)
Record TabularQLearning := {
  _lr : num;
  _decay : num;
  _gamma : num;
  _episode_count : Z;
  _return : num;
  running_avg : list num;
  Q : ndarray num;
}.

Definition set_return (f : num → num) (self : TabularQLearning) :=
  {| _lr := _lr self; _decay := _decay self; _gamma := _gamma self;
     _episode_count := _episode_count self; _return := f (_return self);
     running_avg := running_avg self; Q := Q self |}.

Definition set_episode_count (f : Z → Z) (self : TabularQLearning) :=
  {| _lr := _lr self; _decay := _decay self; _gamma := _gamma self;
     _episode_count := f (_episode_count self); _return := _return self;
     running_avg := running_avg self; Q := Q self |}.

Definition set_running_avg (f : list num → list num) (self : TabularQLearning) :=
  {| _lr := _lr self; _decay := _decay self; _gamma := _gamma self;
     _episode_count := _episode_count self; _return := _return self;
     running_avg := f (running_avg self); Q := Q self |}.

Definition set_Q (q : ndarray num) (self : TabularQLearning) :=
  {| _lr := _lr self; _decay := _decay self; _gamma := _gamma self;
     _episode_count := _episode_count self; _return := _return self;
     running_avg := running_avg self; Q := q |}.

(** [TabularQLearning(nstates, nactions, learning_rate, decay_steps,
    discount_factor)] *)
Definition __init__ (nstates nactions : nat)
    (learning_rate decay_steps discount_factor : num) : TabularQLearning :=
  {| _lr := learning_rate;
     _decay := decay_steps;
     _gamma := discount_factor;
     _episode_count := 1;
     _return := of_int 0;
     running_avg := [of_int 0];
     Q := np.zeros (of_int 0) (nstates, nactions) |}.

(** NumPy's global generator as the tape of the standard normal samples it
    will hand out. *)
Definition tape : Type := nat → num.

(** [np.random.randn(n)]: the next [n] samples. *)
Definition randn (n : nat) : Py tape (list num) :=
  λ t, ((λ k, t (n + k)), Return (map t (seq 0 n))).

(** [plan] runs on the learner and the generator: the samples are drawn,
    scaled by [1. / self._episode_count] and added to the row [Q[state]]. *)
Definition plan (state : nat) (train_mode debug_mode : bool)
  : Py (TabularQLearning * tape) (list num) :=
  self ← gets fst ;
  z ← zoom snd (λ t s, (s.1, t)) (randn (shape (Q self)).2) ;
  scale ← lift (or_raise ZeroDivisionError
                  (truediv (of_int 1) (of_int (_episode_count self)))) ;
  let random_noise := map (λ x, fmul x scale) z in
  row ← lift (getitem (Q self) state) ;
  ret (zip_with fadd row random_noise).

Definition on_episode_start (episode : Z) (train_mode : bool)
  : Py TabularQLearning unit :=
  modify (set_return (λ _, of_int 0)).

(** [on_step_taken], statement by statement: the reward is added to the
    return; the learning rate is [pow(self._lr, self._episode_count /
    self._decay)]; the target is the reward, plus the discounted [np.max] of
    the next state's row unless the transition is terminal; the entry
    [Q[state, action]] is read, and written with the update added; a
    terminal transition counts an episode. *)
Definition on_step_taken (step : Z) (transition : Transition) (info : unit)
  : Py TabularQLearning unit :=
  modify (set_return (λ r, fadd r (reward transition))) ;;
  self ← gets id ;
  x ← lift (or_raise ZeroDivisionError
              (truediv (of_int (_episode_count self)) (_decay self))) ;
  LR ← lift (or_raise ArithmeticError (fpow (_lr self) x)) ;
  target ← (if is_terminal transition
            then ret (reward transition)
            else row ← lift (getitem (Q self) (next_state transition)) ;
                 m ← lift (np.max row) ;
                 ret (fadd (reward transition) (fmul (_gamma self) m))) ;
  q ← lift (getitem2 (Q self) (state transition, action transition)) ;
  Q' ← lift (setitem2 (Q self) (state transition, action transition)
               (fadd q (fmul LR (fsub target q)))) ;
  modify (set_Q Q') ;;
  if is_terminal transition
  then modify (set_episode_count (λ e, e + 1)%Z)
  else ret tt.

(** [self.running_avg[-1]]; the list is never empty, an empty one raises
    [IndexError]. *)
Definition on_episode_end (episode : Z) (train_mode : bool)
  : Py TabularQLearning unit :=
  self ← gets id ;
  prev ← lift (or_raise IndexError (list.last (running_avg self))) ;
  modify (set_running_avg (λ l,
    l ++ [fadd (fmul (float_lit 1 2) (_return self))
               (fmul (float_lit 99 2) prev)])).

(** The [metrics] property: [{"avg. return": self.running_avg[-1]}]. *)
Definition metrics : Py TabularQLearning num :=
  self ← gets id ;
  lift (or_raise IndexError (list.last (running_avg self))).

(** The TD target of a transition on the learner's table: the reward at
    the end of an episode, else the reward plus the discounted maximum of
    the row of the next state. *)
Definition has_target (self : TabularQLearning) (tr : Transition)
    (tgt : num) : Prop :=
  if is_terminal tr then tgt = reward tr
  else ∃ row m, getitem (Q self) (next_state tr) = Return row ∧
         np.max row = Return m ∧
         tgt = fadd (reward tr) (fmul (_gamma self) m).

End QLearning.

(** ** Loops *)

(** [for x in xs: acc = body x acc], for a loop that updates a local. *)
Fixpoint for_acc {S A B} (xs : list A) (acc : B) (body : A → B → Py S B)
  : Py S B :=
  match xs with
  | [] => ret acc
  | x :: xs' => acc' ← body x acc ; for_acc xs' acc' body
  end.

(** [list(map(f, xs))] for an [f] that runs statements. *)
Fixpoint map_py {S A B} (f : A → Py S B) (xs : list A) : Py S (list B) :=
  match xs with
  | [] => ret []
  | x :: xs' => y ← f x ; ys ← map_py f xs' ; ret (y :: ys)
  end.

(** [i = i0; while True: body; i += 1], where [body i] answers [true] when it
    reached [break].  [fuel] bounds the number of times the body is entered;
    a loop that wants to go on with no fuel left is [OutOfFuel]. *)
Fixpoint while_true {St} (fuel : nat) (body : nat → Py St bool) (i : nat)
  : Py St unit :=
  match fuel with
  | 0 => lift OutOfFuel
  | S fuel' =>
      stop ← body i ;
      if stop : bool then ret tt else while_true fuel' body (S i)
  end.

(** [passes body i s n s']: from store [s] with counter [i], the body ran
    [n] times without reaching [break] and left the store [s']. *)
Inductive passes {St} (body : nat → Py St bool)
  : nat → St → nat → St → Prop :=
  | passes_O i s : passes body i s 0 s
  | passes_S i s s1 n s2 :
      body i s = (s1, Return false) →
      passes body (S i) s1 n s2 →
      passes body i s (S n) s2.

(** ** Dynamic programming (the policy-iteration exercise notebook) *)

(** [utils.MDP], as far as the notebook calls it.  A state is the pair of
    car counts [(n1, n2)]; an action is the signed number of cars moved. *)
Record MDP := {
  states_iter : list (nat * nat);
  actions_in_state : nat → nat → list Z;
}.

Section DynamicProgramming.
Context `{F : PyFloat}.

(** The problem: [mdp = MDP()] and the dynamics tensor
    [T = mdp.get_dynamics(path='data.npy')], read as
    [T[n1, n2, action, n1_, n2_] -> (prob., reward)]. *)
Variable mdp : MDP.
Variable T : nat → nat → Z → nat → nat → num * num.

(** What the cells write to the screen: [print] lines and the calls of
    [utils.visualize] and [plt.pause]. *)
Inductive event :=
  | print_policy_evaluation (i : nat)
  | print_policy_evaluation_finished (steps : nat)
  | print_policy_iteration_step (i : nat)
  | print_policy_iteration_finished (iterations : nat)
  | visualize (pi : option (ndarray Z)) (V : option (ndarray num))
  | plt_pause.

(** The notebook's global arrays and its output. *)
Record Globals := {
  pi : ndarray Z;
  V : ndarray num;
  stdout : list event;
}.

Definition set_pi (p : ndarray Z) (g : Globals) : Globals :=
  {| pi := p; V := V g; stdout := stdout g |}.
Definition set_V (v : ndarray num) (g : Globals) : Globals :=
  {| pi := pi g; V := v; stdout := stdout g |}.
Definition emit (e : event) : Py Globals unit :=
  modify (λ g, {| pi := pi g; V := V g; stdout := stdout g ++ [e] |}).

(** [pi = np.zeros(STATE_SPACE, dtype=np.int)] and
    [V = np.zeros(STATE_SPACE, dtype=np.float)]. *)
Definition initial (STATE_SPACE : nat * nat) : Globals :=
  {| pi := np.zeros 0%Z STATE_SPACE;
     V := np.zeros (of_int 0) STATE_SPACE;
     stdout := [] |}.

(** Modelled from the spec: the two exercise lines of the loop body, left
    blank in the notebook, are [p, r = T[n1, n2, action, n1_, n2_]] and
    [q += p * (r + gamma * V[n1_, n2_])] (the one-step lookahead sum of the
    spec's [q_value] sub-contract). *)
Definition q_value (n1 n2 : nat) (action : Z) (gamma : num)
  : Py Globals num :=
  for_acc (states_iter mdp) (of_int 0) (λ '(n1_, n2_) q,
    let '(p, r) := T n1 n2 action n1_ n2_ in
    v ← gets V ;
    x ← lift (getitem2 v (n1_, n2_)) ;
    ret (fadd q (fmul p (fadd r (fmul gamma x))))).

(** Modelled from the spec: the exercise line of the sweep, left blank in
    the notebook, is [V[n1, n2] = q_value(n1, n2, pi[n1, n2], gamma=gamma)],
    an in-place update. *)
Definition evaluate_state (gamma : num) (s : nat * nat) : Py Globals unit :=
  p ← gets pi ;
  a ← lift (getitem2 p s) ;
  q ← q_value s.1 s.2 a gamma ;
  v ← gets V ;
  v' ← lift (setitem2 v s q) ;
  modify (set_V v').

(** The state values visualization at the head of the loop body. *)
Definition show_progress (visualize_each : Z) (i : nat) : Py Globals unit :=
  if bool_decide (0 < visualize_each)%Z
     && bool_decide (Z.of_nat i `mod` visualize_each = 0)%Z
  then emit (print_policy_evaluation i) ;;
       v ← gets V ;
       emit (visualize None (Some v)) ;;
       emit plt_pause
  else ret tt.

(** [for n1, n2 in mdp.states_iter(): ...], one sweep over the states. *)
Definition sweep (gamma : num) : Py Globals unit :=
  for_ (states_iter mdp) (evaluate_state gamma).

(** [np.max(np.abs(V_old - V))] *)
Definition max_diff (V_old V_now : ndarray num) : outcome num :=
  np.max2 (np.abs_diff V_old V_now).

(** One pass of the body of [policy_evaluation]'s [while True]; the answer
    is [true] at [break]. *)
Definition evaluation_pass (gamma theta : num) (visualize_each : Z) (i : nat)
  : Py Globals bool :=
  show_progress visualize_each i ;;
  V_old ← gets (λ g, np.copy (V g)) ;
  sweep gamma ;;
  v ← gets V ;
  d ← lift (max_diff V_old v) ;
  if flt d theta
  then emit (print_policy_evaluation_finished (i + 1)) ;; ret true
  else ret false.

(** [policy_evaluation(gamma, theta, visualize_each)]; the function has no
    [return] statement. *)
Definition policy_evaluation (fuel : nat) (gamma theta : num)
    (visualize_each : Z) : Py Globals unit :=
  while_true fuel (evaluation_pass gamma theta visualize_each) 0.

(** Modelled from the spec: the exercise line, left blank in the notebook
    around [np.argmax], is [best_a = actions[np.argmax(q_values)]]. *)
Definition best_action (gamma : num) (n1 n2 : nat) : Py Globals Z :=
  let actions := actions_in_state mdp n1 n2 in
  q_values ← map_py (λ action, q_value n1 n2 action gamma) actions ;
  k ← lift (np.argmax q_values) ;
  lift (or_raise IndexError (actions !! k)).

(** Modelled from the spec: the exercise lines, left blank in the
    notebook, are [if pi[n1, n2] != best_a: pi[n1, n2] = best_a]. *)
Definition improve_state (gamma : num) (s : nat * nat) (changed : bool)
  : Py Globals bool :=
  best_a ← best_action gamma s.1 s.2 ;
  p ← gets pi ;
  a ← lift (getitem2 p s) ;
  if bool_decide (a ≠ best_a)
  then p' ← lift (setitem2 p s best_a) ;
       modify (set_pi p') ;;
       ret true
  else ret changed.

(** [policy_improvement(gamma)] *)
Definition policy_improvement (gamma : num) : Py Globals bool :=
  for_acc (states_iter mdp) false (improve_state gamma).

(** The store once the head of [policy_iteration]'s loop body has shown
    the step, and once its last lines have shown the result. *)
Definition announced (i : nat) (g : Globals) : Globals :=
  {| pi := pi g; V := V g;
     stdout := stdout g ++ [print_policy_iteration_step i;
                            visualize (Some (pi g)) (Some (V g));
                            plt_pause] |}.
Definition finished (i : nat) (g : Globals) : Globals :=
  {| pi := pi g; V := V g;
     stdout := stdout g ++ [print_policy_iteration_finished (i + 1);
                            visualize (Some (pi g)) (Some (V g))] |}.

(** Modelled from the spec: the two exercise lines, left blank in the
    notebook, are [policy_evaluation(gamma=gamma, theta=theta)] and
    [changed = policy_improvement(gamma=gamma)].  The answer is [true] at
    [break].  [fuel] is the fuel of the evaluation loop inside. *)
Definition iteration_pass (fuel : nat) (gamma theta : num) (i : nat)
  : Py Globals bool :=
  emit (print_policy_iteration_step i) ;;
  g ← gets id ;
  emit (visualize (Some (pi g)) (Some (V g))) ;;
  emit plt_pause ;;
  policy_evaluation fuel gamma theta 0 ;;
  changed ← policy_improvement gamma ;
  if negb changed
  then emit (print_policy_iteration_finished (i + 1)) ;;
       g ← gets id ;
       emit (visualize (Some (pi g)) (Some (V g))) ;;
       ret true
  else ret false.

(** [policy_iteration(gamma, theta)] *)
Definition policy_iteration (fuel : nat) (gamma theta : num)
  : Py Globals unit :=
  while_true fuel (iteration_pass fuel gamma theta) 0.

End DynamicProgramming.

(** ** Laws of an exact arithmetic

    Claims about maxima need [<] to be a strict total order; algebraic
    claims need the arithmetic to be an ordered commutative ring, as the
    rationals and the reals are. *)
Class FloatOrder (F : PyFloat) : Prop := {
  flt_irrefl (x : num) : flt x x = false;
  flt_trans (x y z : num) : flt x y = true → flt y z = true → flt x z = true;
  flt_total (x y : num) : flt x y = false → flt y x = false → x = y;
}.

Class ExactArith (F : PyFloat) : Prop := {
  exact_order : FloatOrder F;
  exact_ring :
    ring_theory (of_int 0) (of_int 1) fadd fmul fsub
      (λ x, fsub (of_int 0) x) (@eq num);
  fadd_lt_mono (x y z : num) :
    flt x y = true → flt (fadd x z) (fadd y z) = true;
  fmul_pos (x y : num) :
    flt (of_int 0) x = true → flt (of_int 0) y = true →
    flt (of_int 0) (fmul x y) = true;
  fabs_def (x : num) :
    fabs x = if flt x (of_int 0) then fsub (of_int 0) x else x;
}.

(** [x <= y] as Python evaluates it on ordered numbers. *)
Definition fle `{F : PyFloat} (x y : num) : Prop := flt y x = false.
Infix "≤" := fle : num_scope.

(** [d] is the maximum over all states [s] of [|V_new(s) - V_old(s)|]. *)
Definition is_max_abs_diff `{F : PyFloat} (V_old V_new : ndarray num)
    (d : num) : Prop :=
  (∃ s x y, getitem2 V_old s = Return x ∧ getitem2 V_new s = Return y ∧
     d = fabs (fsub y x)) ∧
  (∀ s x y, getitem2 V_old s = Return x → getitem2 V_new s = Return y →
     fle (fabs (fsub y x)) d).

(** ** The rationals as an exact arithmetic *)

(** [pow] on rationals, defined at integer exponents, where the power of a
    rational is rational; [0 ** negative] raises. *)
Definition Qc_pow (x y : Qc) : option Qc :=
  match this y with
  | Qmake n 1 =>
      if (0 <=? n)%Z then Some (x ^ Z.to_nat n)%Qc
      else if decide (x = 0%Qc) then None
           else Some (/ (x ^ Z.to_nat (- n)))%Qc
  | _ => None
  end.

Definition Qc_truediv (x y : Qc) : option Qc :=
  if decide (y = 0%Qc) then None else Some (x / y)%Qc.

Definition QcFloat : PyFloat := {|
  num := Qc;
  of_int := Qc_of_Z;
  float_lit := λ m k, Q2Qc (m # Pos.of_nat (10 ^ k));
  fadd := Qcplus;
  fsub := Qcminus;
  fmul := Qcmult;
  fabs := Qcabs;
  flt := λ x y, bool_decide (x < y)%Qc;
  truediv := Qc_truediv;
  fpow := Qc_pow;
|}.

(** ** Sample runs *)

Module Sample.

#[local] Existing Instance QcFloat.

(** A learner over two states and two actions with learning rate [0.5],
    decay horizon [1] and discount [0.9]. *)
Definition mind : TabularQLearning :=
  __init__ 2 2 (float_lit 5 1) (of_int 1)
    (float_lit 9 1).

(** Its learning rate in the first episode, [pow(0.5, 1 / 1)]. *)
Definition rate : num := Qcpower (float_lit 5 1 : Qc) 1.

Definition step_on : Transition :=
  {| state := 0; action := 1; reward := of_int 1;
     next_state := 1; is_terminal := false |}.

Definition step_end : Transition :=
  {| state := 1; action := 0; reward := of_int 1;
     next_state := 0; is_terminal := true |}.

(** A generator whose [k]-th sample is [k]. *)
Definition samples : tape := λ k, of_int (Z.of_nat k).

(** The two-state chain of the spec's concrete scenario: state [A = (0, 0)],
    state [B = (0, 1)]; in [A] action [0] stays in [A] with reward [1] and
    action [1] moves to [B] with reward [0]; [B] is absorbing with reward
    [0]. *)
Definition chain : MDP :=
  {| states_iter := [(0, 0); (0, 1)];
     actions_in_state := λ _ _, [0%Z; 1%Z] |}.

Definition chain_T (n1 n2 : nat) (a : Z) (n1_ n2_ : nat) : num * num :=
  match n2, n2_ with
  | 0, 0 => if (a =? 0)%Z then (of_int 1, of_int 1) else (of_int 0, of_int 0)
  | 0, S _ => if (a =? 0)%Z then (of_int 0, of_int 0) else (of_int 1, of_int 0)
  | S _, 0 => (of_int 0, of_int 0)
  | S _, S _ => (of_int 1, of_int 0)
  end.

Definition chain_start : Globals := initial (1, 2).

(** The value table of the chain holding [z] at [A] and [0] at [B]. *)
Definition chain_at (z : Z) (out : list event) : Globals :=
  {| pi := np.zeros 0%Z (1, 2);
     V := mk_ndarray (1, 2) [[of_int z; of_int 0]];
     stdout := out |}.

End Sample.

(** ** The learner under the loop driver

    [humblerl.loop] calls the methods of the learner it is given: [plan]
    before every step, [on_step_taken] after it, [on_episode_start] and
    [on_episode_end] around an episode.  A run is a sequence of such calls;
    an exception ends a call and leaves the object as it is then. *)

Section LearnerCalls.
Context `{F : PyFloat}.

Inductive call :=
  | call_plan (state : nat) (train_mode debug_mode : bool)
  | call_on_episode_start (episode : Z) (train_mode : bool)
  | call_on_step_taken (step : Z) (transition : Transition) (info : unit)
  | call_on_episode_end (episode : Z) (train_mode : bool).

(** The learner and the generator after a call, whatever its outcome. *)
Definition after (c : call) (st : TabularQLearning * tape)
  : TabularQLearning * tape :=
  match c with
  | call_plan s tm dm => (plan s tm dm st).1
  | call_on_episode_start ep tm => ((on_episode_start ep tm st.1).1, st.2)
  | call_on_step_taken k tr info => ((on_step_taken k tr info st.1).1, st.2)
  | call_on_episode_end ep tm => ((on_episode_end ep tm st.1).1, st.2)
  end.

Definition after_all (cs : list call) (st : TabularQLearning * tape)
  : TabularQLearning * tape :=
  foldl (λ st c, after c st) st cs.

Definition is_episode_end (c : call) : bool :=
  match c with
  | call_on_episode_end _ _ => true
  | _ => false
  end.

(** The steps of an episode: [on_step_taken] on each transition in turn. *)
Definition observe_all (trs : list Transition) : Py TabularQLearning unit :=
  for_ trs (λ tr, on_step_taken 0 tr tt).

(** [np.argmax(a, axis=1)]: the first maximum of every row; rows of length
    zero raise [ValueError]. *)
Fixpoint argmax_rows (rows : list (list num)) : outcome (list nat) :=
  match rows with
  | [] => Return []
  | row :: rows' =>
      match np.argmax row, argmax_rows rows' with
      | Return k, Return ks => Return (k :: ks)
      | Return _, o => o
      | Raise e, _ => Raise e
      | OutOfFuel, _ => OutOfFuel
      end
  end.

Definition argmax_axis1 (a : ndarray num) : outcome (list nat) :=
  if ((shape a).2 =? 0)%nat then Raise ValueError else argmax_rows (data a).

(** [v.reshape(r, c)] of a one-dimensional array; a size that is not [r * c]
    raises [ValueError]. *)
Definition reshape {A} (v : list A) (shp : nat * nat) : outcome (ndarray A) :=
  if (length v =? shp.1 * shp.2)%nat
  then Return (mk_ndarray shp
                 (map (λ i, take shp.2 (drop (i * shp.2) v)) (seq 0 shp.1)))
  else Raise ValueError.

(** The last cell of the notebook: [np.argmax(mind.Q, axis=1).reshape(4,4)]. *)
Definition greedy_table (mind : TabularQLearning) : outcome (ndarray nat) :=
  match argmax_axis1 (Q mind) with
  | Return ks => reshape ks (4, 4)
  | Raise e => Raise e
  | OutOfFuel => OutOfFuel
  end.

(** All entries of the table lie in [[lo, hi]]. *)
Definition entries_within (lo hi : num) (a : ndarray num) : Prop :=
  ∀ ij q, getitem2 a ij = Return q → fle lo q ∧ fle q hi.

End LearnerCalls.

(** ** What the dynamic-programming cells keep *)

Section Kept.
Context `{F : PyFloat}.

(** What an evaluation keeps: the policy, the shape of the value table, and
    the lines already printed. *)
Definition evaluation_keeps (g g' : Globals) : Prop :=
  pi g' = pi g ∧ shape (V g') = shape (V g) ∧
  (well_shaped (V g) → well_shaped (V g')) ∧
  stdout g `prefix_of` stdout g'.

(** What an improvement keeps: the value table, the output, and the shape
    of the policy. *)
Definition improvement_keeps (g g' : Globals) : Prop :=
  V g' = V g ∧ stdout g' = stdout g ∧ shape (pi g') = shape (pi g) ∧
  (well_shaped (pi g) → well_shaped (pi g')).

End Kept.

(** ** Further sample data *)

Module Runs.
Import Sample.

#[local] Existing Instance QcFloat.

(** The learner of the training cell: FrozenLake's 16 states and 4
    actions, [lr = 0.75], [decay = 400], [gamma = 0.95]. *)
Definition lake : TabularQLearning :=
  __init__ 16 4 (float_lit 75 2) (of_int 400) (float_lit 95 2).

(** A transition from a state the two-state learner has no row for. *)
Definition step_off : Transition :=
  {| state := 5; action := 0; reward := of_int 1;
     next_state := 0; is_terminal := false |}.

(** An episode of two steps as the loop driver runs it on the learner. *)
Definition episode : list call :=
  [call_on_episode_start 0 true;
   call_plan 0 true false; call_on_step_taken 0 step_on tt;
   call_plan 1 true false; call_on_step_taken 1 step_end tt;
   call_on_episode_end 0 true].

(** The chain with the value table of always staying in [A] under discount
    [0.9]: [10] at [A] and [0] at [B]. *)
Definition chain_settled : Globals := chain_at 10 [].

(** The chain with a value table that makes leaving [A] the better
    action. *)
Definition chain_leaving : Globals := chain_at (-2) [].

(** The notebook's globals over an empty state space. *)
Definition chain_empty : Globals := initial (0, 0).

End Runs.

(** ** Targets and sweeps, stated apart from the code *)

Section Stated.
Context `{F : PyFloat}.

(** [m] is the maximum of [row]: one of its entries, and no entry exceeds
    it. *)
Definition is_greatest (row : list num) (m : num) : Prop :=
  m ∈ row ∧ ∀ x, x ∈ row → fle x m.

(** The TD target of a transition on the learner's table: the reward when
    the transition is terminal, else the reward plus the discount times the
    maximum over the actions [a'] of [Q[next_state, a']]. *)
Definition is_td_target (self : TabularQLearning) (tr : Transition)
    (tgt : num) : Prop :=
  if is_terminal tr then tgt = reward tr
  else ∃ row m, getitem (Q self) (next_state tr) = Return row ∧
         is_greatest row m ∧
         tgt = fadd (reward tr) (fmul (_gamma self) m).

Variable mdp : MDP.
Variable T : nat → nat → Z → nat → nat → num * num.

(** What a sweep does at the state [s]: the entry [V[s]] becomes the
    q-value of the policy's action at [s], computed on the table as it
    stands; every other entry, the policy and the output stay. *)
Definition sweep_step (gamma : num) (s : nat * nat) (g g1 : Globals)
  : Prop :=
  ∃ a q, getitem2 (pi g) s = Return a ∧
    (q_value mdp T s.1 s.2 a gamma g).2 = Return q ∧
    getitem2 (V g1) s = Return q ∧
    (∀ s', s' ≠ s → getitem2 (V g1) s' = getitem2 (V g) s') ∧
    pi g1 = pi g ∧ stdout g1 = stdout g.

(** A full sweep over the states [ss]: one step at every state of the
    list, in its order, each on the globals the step before left. *)
Inductive swept (gamma : num)
  : list (nat * nat) → Globals → Globals → Prop :=
  | swept_nil g : swept gamma [] g g
  | swept_cons s ss g g1 g2 :
      sweep_step gamma s g g1 →
      swept gamma ss g1 g2 →
      swept gamma (s :: ss) g g2.

End Stated.

(** A computation without [while] loops: it returns or raises, whatever
    the fuel. *)
Definition fuel_free {S A} (m : Py S A) : Prop :=
  ∀ s, (m s).2 ≠ OutOfFuel.

(** ** Binary64 floats

    Python's [float] on the usual platforms: IEEE 754 binary64 with
    round-to-nearest-even, as the kernel's primitive floats compute it.
    [float.__pow__] decides [x ** 0 = 1.0] and [1.0 ** y = 1.0] itself, for
    every [x] and [y]; what it does in the remaining cases (the C library's
    [pow] and its errors) is the parameter [rest]. *)

Definition Z2float (z : Z) : PrimFloat.float :=
  FloatOps.SF2Prim
    (SpecFloat.binary_normalize FloatOps.prec FloatOps.emax z 0 false).

Definition float_pow (rest : PrimFloat.float → PrimFloat.float
                             → option PrimFloat.float)
    (x y : PrimFloat.float) : option PrimFloat.float :=
  if PrimFloat.eqb y (Z2float 0) then Some (Z2float 1)
  else if PrimFloat.eqb x (Z2float 1) then Some (Z2float 1)
  else rest x y.

(** [x / y] raises [ZeroDivisionError] on a zero divisor.  [float_lit m k]
    is the quotient of two integers, which rounds once: for the literals of
    the notebooks, whose digits and power of ten are exact floats, it is
    the float the literal denotes. *)
Definition Binary64 (rest : PrimFloat.float → PrimFloat.float
                            → option PrimFloat.float) : PyFloat := {|
  num := PrimFloat.float;
  of_int := Z2float;
  float_lit := λ m k, PrimFloat.div (Z2float m) (Z2float (10 ^ Z.of_nat k));
  fadd := PrimFloat.add;
  fsub := PrimFloat.sub;
  fmul := PrimFloat.mul;
  fabs := PrimFloat.abs;
  flt := PrimFloat.ltb;
  truediv := λ x y,
    if PrimFloat.eqb y (Z2float 0) then None else Some (PrimFloat.div x y);
  fpow := float_pow rest;
|}.

(** ** Sample data for the update *)

Module Updates.
Import Sample.

#[local] Existing Instance QcFloat.

(** A learner whose table has been written: the row of state [1] holds
    [1] and [3], so its maximum is not its first entry. *)
Definition seasoned : TabularQLearning :=
  {| _lr := float_lit 5 1; _decay := of_int 1; _gamma := float_lit 9 1;
     _episode_count := 1; _return := of_int 0; running_avg := [of_int 0];
     Q := mk_ndarray (2, 2) [[of_int 0; of_int 0]; [of_int 1; of_int 3]] |}.

(** The target of [step_on] on [seasoned]: [1 + 0.9 * 3]. *)
Definition seasoned_target : num :=
  fadd (of_int 1) (fmul (float_lit 9 1) (of_int 3)).

End Updates.

Module Rounding.

Section Run.
Variable rest : PrimFloat.float → PrimFloat.float → option PrimFloat.float.

#[local] Instance B64 : PyFloat := Binary64 rest.

(** A terminal transition at the only entry of a one-entry table, with the
    given reward. *)
Definition closing (r : Z) : Transition :=
  {| state := 0; action := 0; reward := of_int r;
     next_state := 0; is_terminal := true |}.

(** The learner built with learning rate [1.0] and decay horizon [1] after
    a first episode of one step with reward [10 ** 16]: its entry holds
    [1e16]. *)
Definition steep : TabularQLearning :=
  (on_step_taken 0 (closing (10 ^ 16)) tt
     (__init__ 1 1 (of_int 1) (of_int 1) (float_lit 9 1))).1.

End Run.

End Rounding.

(** * Facts *)

Ltac py_unfold :=
  unfold mbind, Py_bind, ret, mret, Py_ret, lift, gets, modify, zoom, or_raise in *.

Section ArrayFacts.
Context {A : Type}.
Implicit Types (a : ndarray A) (v : A).

(** Reading and writing entries of a two-dimensional array. *)
Lemma setitem2_Return a ij v a' :
  setitem2 a ij v = Return a' →
  ∃ row x, data a !! ij.1 = Some row ∧ row !! ij.2 = Some x ∧
    a' = mk_ndarray (shape a) (<[ij.1 := <[ij.2 := v]> row]> (data a)).
Proof.
  unfold setitem2. destruct (data a !! ij.1) as [row|] eqn:Hr; [|done].
  destruct (row !! ij.2) as [x|] eqn:Hx; [|done].
  intros [= <-]. eauto.
Qed.

Lemma getitem2_setitem2_eq a ij v a' :
  setitem2 a ij v = Return a' → getitem2 a' ij = Return v.
Proof.
  intros (row & x & Hr & Hx & ->)%setitem2_Return. unfold getitem2. simpl.
  rewrite list_lookup_insert_eq by eauto using lookup_lt_Some. simpl.
  rewrite list_lookup_insert_eq by eauto using lookup_lt_Some. done.
Qed.

Lemma getitem2_setitem2_ne a ij kl v a' :
  setitem2 a ij v = Return a' → kl ≠ ij → getitem2 a' kl = getitem2 a kl.
Proof.
  intros (row & x & Hr & Hx & ->)%setitem2_Return Hne. unfold getitem2. simpl.
  destruct (decide (kl.1 = ij.1)) as [E1|N1].
  - rewrite E1, Hr. rewrite list_lookup_insert_eq by eauto using lookup_lt_Some.
    rewrite list_lookup_insert_ne; [done|].
    intros E2. apply Hne. destruct kl, ij; simpl in *; congruence.
  - rewrite list_lookup_insert_ne by done. done.
Qed.

Lemma getitem2_is_Return_setitem2 a ij v x :
  getitem2 a ij = Return x → ∃ a', setitem2 a ij v = Return a'.
Proof.
  unfold getitem2, setitem2. destruct (data a !! ij.1) as [row|]; [|done].
  destruct (row !! ij.2); [eauto|done].
Qed.

Lemma setitem2_same a ij x a' :
  getitem2 a ij = Return x → setitem2 a ij x = Return a' → a' = a.
Proof.
  unfold getitem2. intros Hg (row & y & Hr & Hy & ->)%setitem2_Return.
  rewrite Hr in Hg. simpl in Hg. rewrite Hy in Hg. injection Hg as ->.
  rewrite (list_insert_id row) by done. rewrite list_insert_id by done.
  by destruct a.
Qed.
End ArrayFacts.

Section QLearningFacts.
Context `{F : PyFloat}.
Implicit Types (self : TabularQLearning) (tr : Transition).

(** What a call of [on_step_taken] that returns has computed and left. *)
Lemma on_step_taken_Return self step tr info self' :
  on_step_taken step tr info self = (self', Return tt) ↔
  ∃ x LR tgt q Q',
    truediv (of_int (_episode_count self)) (_decay self) = Some x ∧
    fpow (_lr self) x = Some LR ∧
    has_target self tr tgt ∧
    getitem2 (Q self) (state tr, action tr) = Return q ∧
    setitem2 (Q self) (state tr, action tr) (fadd q (fmul LR (fsub tgt q)))
      = Return Q' ∧
    self' = {| _lr := _lr self; _decay := _decay self; _gamma := _gamma self;
               _episode_count :=
                 if is_terminal tr then (_episode_count self + 1)%Z
                 else _episode_count self;
               _return := fadd (_return self) (reward tr);
               running_avg := running_avg self;
               Q := Q' |}.
Proof.
  unfold on_step_taken, has_target. py_unfold. simpl. split.
  - destruct (truediv _ _) as [x|] eqn:Hx; simpl; [|done].
    destruct (fpow _ x) as [LR|] eqn:HLR; simpl; [|done].
    destruct (is_terminal tr); simpl.
    + destruct (getitem2 _ _) as [q| |] eqn:Hq; simpl; [|done..].
      destruct (setitem2 _ _ _) as [Q'| |] eqn:HQ; simpl; [|done..].
      intros [= <-]. by exists x, LR, (reward tr), q, Q'.
    + destruct (getitem (Q self) _) as [row| |] eqn:Hrow; simpl; [|done..].
      destruct (np.max row) as [m| |] eqn:Hm; simpl; [|done..].
      destruct (getitem2 _ _) as [q| |] eqn:Hq; simpl; [|done..].
      destruct (setitem2 _ _ _) as [Q'| |] eqn:HQ; simpl; [|done..].
      intros [= <-].
      exists x, LR, (fadd (reward tr) (fmul (_gamma self) m)), q, Q'.
      repeat split; eauto.
  - intros (x & LR & tgt & q & Q' & Hx & HLR & Htgt & Hq & HQ & ->).
    rewrite Hx; simpl. rewrite HLR; simpl.
    destruct (is_terminal tr); simpl.
    + subst tgt. rewrite Hq; simpl. by rewrite HQ.
    + destruct Htgt as (row & m & Hrow & Hm & ->).
      rewrite Hrow; simpl. rewrite Hm; simpl. rewrite Hq; simpl.
      by rewrite HQ.
Qed.

(** A call that raises has only added the reward to the return. *)
Lemma on_step_taken_not_Return self step tr info :
  (on_step_taken step tr info self).2 ≠ Return tt →
  (on_step_taken step tr info self).1
  = set_return (λ r, fadd r (reward tr)) self.
Proof.
  unfold on_step_taken. py_unfold. simpl.
  destruct (truediv _ _) as [x|]; simpl; [|done].
  destruct (fpow _ x) as [LR|]; simpl; [|done].
  destruct (is_terminal tr); simpl.
  - destruct (getitem2 _ _) as [q| |]; simpl; [|done..].
    destruct (setitem2 _ _ _) as [Q'| |]; simpl; done.
  - destruct (getitem (Q self) _) as [row| |]; simpl; [|done..].
    destruct (np.max row) as [m| |]; simpl; [|done..].
    destruct (getitem2 _ _) as [q| |]; simpl; [|done..].
    destruct (setitem2 _ _ _) as [Q'| |]; simpl; done.
Qed.

Lemma on_step_taken_cases self step tr info :
  (∃ self', on_step_taken step tr info self = (self', Return tt)) ∨
  (on_step_taken step tr info self).1
  = set_return (λ r, fadd r (reward tr)) self.
Proof.
  destruct (on_step_taken step tr info self) as [self' [[]| |]] eqn:E.
  - left. eauto.
  - right. change self' with (self', @Raise unit e).1. rewrite <-E.
    apply on_step_taken_not_Return. by rewrite E.
  - right. change self' with (self', @OutOfFuel unit).1. rewrite <-E.
    apply on_step_taken_not_Return. by rewrite E.
Qed.

(** C6. The episode counter is [1] right after construction; a call of
    [on_step_taken] that returns leaves it one higher when the transition
    is terminal and unchanged when it is not; on a transition that is not
    terminal it is unchanged whatever the call does. *)
Theorem episode_count_steps :
  (∀ nstates nactions learning_rate decay_steps discount_factor,
     _episode_count
       (__init__ nstates nactions learning_rate decay_steps discount_factor)
     = 1%Z) ∧
  (∀ self step tr info self',
     on_step_taken step tr info self = (self', Return tt) →
     _episode_count self'
     = if is_terminal tr then (_episode_count self + 1)%Z
       else _episode_count self) ∧
  (∀ self step tr info,
     is_terminal tr = false →
     _episode_count (on_step_taken step tr info self).1
     = _episode_count self).
Proof.
  split; [done|]. split.
  - intros self step tr info self'
      (x & LR & tgt & q & Q' & _ & _ & _ & _ & _ & ->)%on_step_taken_Return.
    done.
  - intros self step tr info Hterm.
    destruct (on_step_taken_cases self step tr info) as [[self' E]|E].
    + rewrite E. simpl.
      apply on_step_taken_Return in E
        as (x & LR & tgt & q & Q' & _ & _ & _ & _ & _ & ->).
      simpl. by rewrite Hterm.
    + by rewrite E.
Qed.

(** C8. [on_step_taken] changes at most the entry [Q[state, action]] of
    the observed transition: every entry at another pair [(s, a)] reads
    the same before and after the call, also when the call raises. *)
Theorem on_step_taken_frame self step tr info (s a : nat) :
  (s, a) ≠ (state tr, action tr) →
  getitem2 (Q (on_step_taken step tr info self).1) (s, a)
  = getitem2 (Q self) (s, a).
Proof.
  intros Hne.
  destruct (on_step_taken_cases self step tr info) as [[self' E]|E].
  - rewrite E. simpl.
    apply on_step_taken_Return in E
      as (x & LR & tgt & q & Q' & _ & _ & _ & _ & HQ & ->).
    simpl. eauto using getitem2_setitem2_ne.
  - by rewrite E.
Qed.

(** C10. [plan] does not modify the learner: the object after the call
    is the object before it, so its Q-table, episode counter, accumulated
    return and running-average list are the same.  (The scores are a
    fresh vector; only NumPy's generator advances.) *)
Theorem plan_frame self (t : tape) (s : nat) (train_mode debug_mode : bool) :
  (plan s train_mode debug_mode (self, t)).1.1 = self.
Proof.
  unfold plan, randn. py_unfold. simpl.
  destruct (truediv _ _); simpl; [|done].
  destruct (getitem _ _); done.
Qed.
End QLearningFacts.

Section ShapeFacts.
Context `{F : PyFloat}.

Lemma well_shaped_zeros {A} (zero : A) (shp : nat * nat) :
  well_shaped (np.zeros zero shp).
Proof.
  split; simpl; [apply length_replicate|].
  apply Forall_replicate, length_replicate.
Qed.

Lemma well_shaped_setitem2 {A} (a a' : ndarray A) ij v :
  well_shaped a → setitem2 a ij v = Return a' → well_shaped a'.
Proof.
  intros [Hrows Hcols] (row & x & Hrow & Hx & ->)%setitem2_Return.
  split; simpl; [by rewrite length_insert|].
  apply Forall_insert; [done|]. rewrite length_insert.
  by eapply (Forall_lookup_1 _ _ _ _ Hcols).
Qed.

(** The Q-table keeps the shape it was built with. *)
Lemma init_well_shaped nstates nactions lr decay gamma :
  well_shaped (Q (__init__ nstates nactions lr decay gamma)).
Proof. apply well_shaped_zeros. Qed.

Lemma on_step_taken_well_shaped (self : TabularQLearning) step tr info :
  well_shaped (Q self) →
  well_shaped (Q (on_step_taken step tr info self).1).
Proof.
  intros Hwf.
  destruct (on_step_taken_cases self step tr info) as [[self' E]|E].
  - rewrite E. simpl.
    apply on_step_taken_Return in E
      as (x & LR & tgt & q & Q' & _ & _ & _ & _ & HQ & ->).
    simpl. eauto using well_shaped_setitem2.
  - by rewrite E.
Qed.
End ShapeFacts.

Section OrderFacts.
Local Open Scope num_scope.
Context `{F : PyFloat} {O : FloatOrder F}.
Implicit Types x y z m : num.

(** Consequences of the order laws. *)
Lemma flt_asym x y : flt x y = true → flt y x = false.
Proof.
  intros Hxy. destruct (flt y x) eqn:Hyx; [|done].
  by rewrite <-(flt_irrefl x), (flt_trans x y x).
Qed.

Lemma fle_total x y : x ≤ y ∨ y ≤ x.
Proof.
  unfold fle. destruct (flt y x) eqn:Hyx; [|by left].
  right. by apply flt_asym.
Qed.

Lemma fle_refl x : fle x x.
Proof. apply flt_irrefl. Qed.

Lemma fle_trans x y z : fle x y → fle y z → fle x z.
Proof.
  unfold fle. intros Hxy Hyz. apply not_true_is_false. intros Hzx.
  destruct (flt x y) eqn:Hlt.
  - by rewrite (flt_trans z x y) in Hyz.
  - rewrite (flt_total _ _ Hlt Hxy) in Hzx. congruence.
Qed.

Lemma fle_maximum_l m y : fle m (np.maximum m y).
Proof.
  unfold np.maximum. destruct (flt m y) eqn:E; [|apply fle_refl].
  by apply flt_asym.
Qed.

Lemma fle_maximum_r m y : fle y (np.maximum m y).
Proof.
  unfold np.maximum. destruct (flt m y) eqn:E; [apply fle_refl|done].
Qed.

Lemma foldl_maximum xs m0 :
  (foldl np.maximum m0 xs = m0 ∨ foldl np.maximum m0 xs ∈ xs) ∧
  fle m0 (foldl np.maximum m0 xs) ∧
  ∀ x, x ∈ xs → fle x (foldl np.maximum m0 xs).
Proof.
  revert m0. induction xs as [|y ys IH]; intros m0; simpl.
  - split; [by left|]. split; [apply fle_refl|]. by intros x ?%elem_of_nil.
  - destruct (IH (np.maximum m0 y)) as (Hin & Hle & Hall). split.
    + destruct Hin as [->|Hin]; [|right; by right].
      unfold np.maximum. destruct (flt m0 y); [right; left|by left].
    + split.
      * eapply fle_trans; [apply fle_maximum_l|done].
      * intros x [->|Hx]%elem_of_cons; [|by apply Hall].
        eapply fle_trans; [apply fle_maximum_r|done].
Qed.

(** [np.max] answers an entry of the sequence that no entry exceeds. *)
Lemma np_max_greatest l m :
  np.max l = Return m → m ∈ l ∧ ∀ x, x ∈ l → fle x m.
Proof.
  destruct l as [|x xs]; [done|]. simpl. intros [= <-].
  destruct (foldl_maximum xs x) as (Hin & Hle & Hall). split.
  - destruct Hin as [->|Hin]; [left|by right].
  - by intros y [->|Hy]%elem_of_cons; [|apply Hall].
Qed.
End OrderFacts.

Section TargetFacts.
Context `{F : PyFloat} {O : FloatOrder F}.
Implicit Types (self : TabularQLearning) (tr : Transition).

(** [np.max] answers the maximum, and nothing else. *)
Lemma np_max_is_greatest row m : np.max row = Return m ↔ is_greatest row m.
Proof.
  split; [apply np_max_greatest|]. intros [Hin Hall].
  destruct (np.max row) as [m'| |] eqn:Hm.
  - apply np_max_greatest in Hm as [Hin' Hall']. f_equal.
    apply flt_total; [by apply Hall'|by apply Hall].
  - destruct row; [by apply elem_of_nil in Hin|done].
  - by destruct row.
Qed.

(** The target the code computes is the TD target. *)
Lemma has_target_is_td_target self tr tgt :
  has_target self tr tgt ↔ is_td_target self tr tgt.
Proof.
  unfold has_target, is_td_target. destruct (is_terminal tr); [done|].
  split; intros (row & m & Hrow & Hm & ->); exists row, m;
    (split; [done|]); (split; [|done]); by apply np_max_is_greatest.
Qed.

(** C1. For every call of [on_step_taken] on a transition [(state, action,
    reward, next_state, is_terminal)], with episode counter [e], base
    learning rate [α0], decay horizon [d] and discount [γ]: the entry
    [Q[state, action]] is replaced by [Q[state, action] + α * (target -
    Q[state, action])], where [α = α0 ^ (e / d)] and [target] is the reward
    when the transition is terminal and otherwise the reward plus [γ] times
    the maximum over [a'] of [Q[next_state, a']]: an entry of that row that
    no entry of the row exceeds.  First part: a call that returns has done
    so.  Second part: the call returns whenever [e / d], [α], the target
    and the old entry exist (it raises otherwise). *)
Theorem on_step_taken_td_update self step tr info :
  (∀ self',
     on_step_taken step tr info self = (self', Return tt) →
     ∃ x α tgt q,
       truediv (of_int (_episode_count self)) (_decay self) = Some x ∧
       fpow (_lr self) x = Some α ∧
       is_td_target self tr tgt ∧
       getitem2 (Q self) (state tr, action tr) = Return q ∧
       getitem2 (Q self') (state tr, action tr)
       = Return (fadd q (fmul α (fsub tgt q)))) ∧
  (∀ x α tgt q,
     truediv (of_int (_episode_count self)) (_decay self) = Some x →
     fpow (_lr self) x = Some α →
     is_td_target self tr tgt →
     getitem2 (Q self) (state tr, action tr) = Return q →
     ∃ self', on_step_taken step tr info self = (self', Return tt) ∧
       getitem2 (Q self') (state tr, action tr)
       = Return (fadd q (fmul α (fsub tgt q)))).
Proof.
  split.
  - intros self'
      (x & α & tgt & q & Q' & Hx & Hα & Htgt & Hq & HQ & ->)%on_step_taken_Return.
    apply has_target_is_td_target in Htgt.
    exists x, α, tgt, q. simpl. eauto 10 using getitem2_setitem2_eq.
  - intros x α tgt q Hx Hα Htgt%has_target_is_td_target Hq.
    destruct (getitem2_is_Return_setitem2 _ _ (fadd q (fmul α (fsub tgt q))) _ Hq)
      as [Q' HQ].
    eexists. split.
    + apply on_step_taken_Return. exists x, α, tgt, q, Q'. eauto 10.
    + simpl. eauto using getitem2_setitem2_eq.
Qed.
End TargetFacts.

Section ExactFacts.
Context `{F : PyFloat} {E : ExactArith F}.
Implicit Types x y z : num.

Add Ring num_ring : exact_ring.

Local Open Scope num_scope.

(** Order and ring laws combined. *)
Lemma fle_sub_nonneg x y : x ≤ y ↔ 0 ≤ y - x.
Proof.
  unfold fle. split; intros H; apply not_true_is_false; intros Hlt.
  - apply (fadd_lt_mono _ _ x) in Hlt.
    replace (y - x + x) with y in Hlt by ring.
    replace (0 + x) with x in Hlt by ring. congruence.
  - apply (fadd_lt_mono _ _ (0 - x)) in Hlt.
    replace (y + (0 - x)) with (y - x) in Hlt by ring.
    replace (x + (0 - x)) with 0 in Hlt by ring. congruence.
Qed.

Lemma fle_mul_nonneg x y : 0 ≤ x → 0 ≤ y → 0 ≤ x * y.
Proof.
  pose proof exact_order as HO.
  unfold fle. intros Hx Hy.
  destruct (flt 0 x) eqn:Hx'.
  - destruct (flt 0 y) eqn:Hy'.
    + apply flt_asym. by apply fmul_pos.
    + assert (y = 0) as -> by by apply flt_total.
      replace (x * 0) with 0 by ring. apply flt_irrefl.
  - assert (x = 0) as -> by by apply flt_total.
    replace (0 * y) with 0 by ring. apply flt_irrefl.
Qed.

(** The interpolation step of the Q-update: [q + α (t - q)] is the convex
    combination of [q] and [t] and lies between them for [α] in [[0, 1]]. *)
Lemma td_step_convex q α t :
  q + α * (t - q) = (1 - α) * q + α * t.
Proof. ring. Qed.

Lemma td_step_between q α t :
  0 ≤ α → α ≤ 1 →
  (q ≤ q + α * (t - q) ∧ q + α * (t - q) ≤ t) ∨
  (t ≤ q + α * (t - q) ∧ q + α * (t - q) ≤ q).
Proof.
  pose proof exact_order as HO.
  intros H0 H1. apply fle_sub_nonneg in H1.
  destruct (fle_total q t) as [Hqt|Htq]; [left|right].
  - apply fle_sub_nonneg in Hqt. split; apply fle_sub_nonneg.
    + replace (q + α * (t - q) - q) with (α * (t - q)) by ring.
      by apply fle_mul_nonneg.
    + replace (t - (q + α * (t - q))) with ((1 - α) * (t - q)) by ring.
      by apply fle_mul_nonneg.
  - apply fle_sub_nonneg in Htq. split; apply fle_sub_nonneg.
    + replace (q + α * (t - q) - t) with ((1 - α) * (q - t)) by ring.
      by apply fle_mul_nonneg.
    + replace (q - (q + α * (t - q))) with (α * (q - t)) by ring.
      by apply fle_mul_nonneg.
Qed.

Lemma td_step_fixed q α : q + α * (q - q) = q.
Proof. ring. Qed.

(** C9, as amended.  In an exact arithmetic the value that [on_step_taken]
    writes into [Q[state, action]], [Q[state, action] + α * (target -
    Q[state, action])], is [(1 - α) * Q[state, action] + α * target], and
    for [α] in [[0, 1]] it lies between the old entry and the target
    (first part); and when the target equals the old entry the call leaves
    the Q-table unchanged (second part). *)
Theorem on_step_taken_convex :
  (∀ (self self' : TabularQLearning) step tr info x α tgt q,
     on_step_taken step tr info self = (self', Return tt) →
     truediv (of_int (_episode_count self)) (_decay self) = Some x →
     fpow (_lr self) x = Some α →
     is_td_target self tr tgt →
     getitem2 (Q self) (state tr, action tr) = Return q →
     ∃ q', getitem2 (Q self') (state tr, action tr) = Return q' ∧
       q' = (1 - α) * q + α * tgt ∧
       (0 ≤ α → α ≤ 1 → (q ≤ q' ∧ q' ≤ tgt) ∨ (tgt ≤ q' ∧ q' ≤ q))) ∧
  (∀ (self self' : TabularQLearning) step tr info tgt,
     on_step_taken step tr info self = (self', Return tt) →
     is_td_target self tr tgt →
     getitem2 (Q self) (state tr, action tr) = Return tgt →
     Q self' = Q self).
Proof.
  pose proof exact_order as HO.
  assert (∀ (self self' : TabularQLearning) step tr info tgt q,
    on_step_taken step tr info self = (self', Return tt) →
    is_td_target self tr tgt →
    getitem2 (Q self) (state tr, action tr) = Return q →
    ∃ x α,
      truediv (of_int (_episode_count self)) (_decay self) = Some x ∧
      fpow (_lr self) x = Some α ∧
      setitem2 (Q self) (state tr, action tr) (q + α * (tgt - q))
      = Return (Q self')) as Hrun.
  { intros self self' step tr info tgt q
      (x & α & tgt' & q' & Q' & Hx & Hα & Htgt' & Hq' & HQ & ->)%on_step_taken_Return
      Htgt%has_target_is_td_target Hq.
    assert (q' = q) as -> by congruence.
    assert (tgt' = tgt) as ->.
    { unfold has_target in *. destruct (is_terminal tr); [congruence|].
      destruct Htgt as (row & m & Hrow & Hm & ->).
      destruct Htgt' as (row' & m' & Hrow' & Hm' & ->). congruence. }
    exists x, α. eauto. }
  split.
  - intros self self' step tr info x α tgt q Hcall Hx Hα Htgt Hq.
    destruct (Hrun _ _ _ _ _ _ _ Hcall Htgt Hq) as (x' & α' & Hx' & Hα' & HQ).
    assert (x' = x) as -> by congruence.
    assert (α' = α) as -> by congruence.
    exists (q + α * (tgt - q)).
    split; [eauto using getitem2_setitem2_eq|].
    split; [apply td_step_convex|apply td_step_between].
  - intros self self' step tr info tgt Hcall Htgt Hq.
    destruct (Hrun _ _ _ _ _ _ _ Hcall Htgt Hq) as (x & α & _ & _ & HQ).
    rewrite td_step_fixed in HQ. eauto using setitem2_same.
Qed.
End ExactFacts.

Section PlanFacts.
Context `{F : PyFloat}.

(** C7. For a state [s] of the table and episode counter [e], [plan]
    returns the vector of the scores of all actions, [Q[s, a] + z_a * (1 /
    e)] for every action [a], where [z_a] is the [a]-th of the
    [nactions] fresh samples that [np.random.randn] hands out (one per
    action, standard normal by NumPy's contract); it returns the scores
    and picks no action.  The generator has advanced by [nactions]
    samples. *)
Theorem plan_scores (self : TabularQLearning) (t : tape) (s : nat)
    (train_mode debug_mode : bool) (scale : num) :
  well_shaped (Q self) →
  s < (shape (Q self)).1 →
  truediv (of_int 1) (of_int (_episode_count self)) = Some scale →
  ∃ scores,
    plan s train_mode debug_mode (self, t)
    = ((self, λ k, t ((shape (Q self)).2 + k)), Return scores) ∧
    length scores = (shape (Q self)).2 ∧
    ∀ a, a < (shape (Q self)).2 →
      ∃ q, getitem2 (Q self) (s, a) = Return q ∧
        scores !! a = Some (fadd q (fmul (t a) scale)).
Proof.
  intros [Hrows Hcols] Hs Hscale.
  destruct (lookup_lt_is_Some_2 (data (Q self)) s) as [row Hrow]; [lia|].
  assert (length row = (shape (Q self)).2) as Hlen.
  { eapply (Forall_lookup_1 _ _ _ _ Hcols Hrow). }
  unfold plan, randn, getitem. py_unfold. simpl.
  rewrite Hscale, Hrow. simpl. eexists. split; [done|]. split.
  - rewrite length_zip_with, !length_map, length_seq. lia.
  - intros a Ha. unfold getitem2. simpl. rewrite Hrow. simpl.
    destruct (lookup_lt_is_Some_2 row a) as [q Hq]; [lia|].
    exists q. rewrite Hq. split; [done|].
    rewrite lookup_zip_with, Hq. simpl.
    rewrite !list_lookup_fmap, lookup_seq_lt by done. done.
Qed.
End PlanFacts.

Section LoopFacts.
Context {St : Type}.
Implicit Types (body : nat → Py St bool) (s : St).

(** One turn of a [while True] loop. *)
Lemma while_true_unfold fuel body i s :
  while_true (S fuel) body i s
  = match body i s with
    | (s', Return true) => (s', Return tt)
    | (s', Return false) => while_true fuel body (S i) s'
    | (s', Raise e) => (s', Raise e)
    | (s', OutOfFuel) => (s', OutOfFuel)
    end.
Proof.
  simpl. py_unfold. destruct (body i s) as [s' [[]| |]]; done.
Qed.

(** After [n] passes that did not break the loop goes on: no count of
    passes stops it. *)
Lemma while_true_passes body i s n s' k :
  passes body i s n s' →
  while_true (n + k) body i s = while_true k body (i + n) s'.
Proof.
  induction 1 as [i s|i s s1 n s2 Hbody _ IH].
  - by rewrite Nat.add_0_r.
  - rewrite Nat.add_succ_l, while_true_unfold, Hbody, IH. f_equal. lia.
Qed.

Lemma while_true_out_of_fuel body i s n s' :
  passes body i s n s' → while_true n body i s = (s', OutOfFuel).
Proof.
  intros H. by rewrite <-(Nat.add_0_r n), (while_true_passes _ _ _ _ _ _ H).
Qed.

(** The loop returns exactly at the first pass that breaks. *)
Lemma while_true_Return fuel body i s s' :
  while_true fuel body i s = (s', Return tt) ↔
  ∃ n s1, n < fuel ∧ passes body i s n s1 ∧
    body (i + n) s1 = (s', Return true).
Proof.
  revert i s. induction fuel as [|fuel IH]; intros i s.
  - split; [done|]. intros (n & s1 & Hn & _). lia.
  - rewrite while_true_unfold. split.
    + destruct (body i s) as [s1 [[]| |]] eqn:Hbody; [| |done..].
      * intros [= <-]. exists 0, s. rewrite Nat.add_0_r.
        split; [lia|]. split; [constructor|done].
      * intros (n & s2 & Hn & Hp & Hlast)%IH.
        exists (S n), s2. split; [lia|]. split; [by econstructor|].
        by rewrite Nat.add_succ_r.
    + intros (n & s1 & Hn & Hp & Hlast). destruct Hp as [i s|i s s0 n s2 Hb Hp].
      * rewrite Nat.add_0_r in Hlast. by rewrite Hlast.
      * rewrite Hb. apply IH. exists n, s2. split; [lia|]. split; [done|].
        by rewrite Nat.add_succ_r in Hlast.
Qed.

(** More fuel does not change the outcome of a loop that ended, also when
    the body itself runs on fuel. *)
Lemma while_true_mono2 fuel fuel' body body' i s :
  fuel ≤ fuel' →
  (∀ i s, (body i s).2 ≠ OutOfFuel → body' i s = body i s) →
  (while_true fuel body i s).2 ≠ OutOfFuel →
  while_true fuel' body' i s = while_true fuel body i s.
Proof.
  intros Hle Hbody. revert fuel' i s Hle.
  induction fuel as [|fuel IH]; intros fuel' i s Hle; [done|].
  destruct fuel' as [|fuel']; [lia|]. rewrite !while_true_unfold.
  destruct (body i s) as [s1 o] eqn:Hb.
  destruct o as [[]| |]; simpl; try done.
  - intros _. rewrite Hbody; by rewrite Hb.
  - intros Hend. rewrite Hbody by by rewrite Hb. rewrite Hb.
    apply IH; [lia|done].
  - intros _. rewrite Hbody; by rewrite Hb.
Qed.

Lemma while_true_mono fuel fuel' body i s :
  fuel ≤ fuel' →
  (while_true fuel body i s).2 ≠ OutOfFuel →
  while_true fuel' body i s = while_true fuel body i s.
Proof. intros Hle. by apply while_true_mono2. Qed.
End LoopFacts.

Section LoopOutcomes.
Context {St : Type}.
Implicit Types (body : nat → Py St bool) (s : St).

(** The loop raises exactly when a pass raises. *)
Lemma while_true_Raise fuel body i s s' e :
  while_true fuel body i s = (s', Raise e) ↔
  ∃ n s1, n < fuel ∧ passes body i s n s1 ∧
    body (i + n) s1 = (s', Raise e).
Proof.
  revert i s. induction fuel as [|fuel IH]; intros i s.
  - split; [done|]. intros (n & s1 & Hn & _). lia.
  - rewrite while_true_unfold. split.
    + destruct (body i s) as [s1 [[]|e'|]] eqn:Hbody; [done| | |done].
      * intros (n & s2 & Hn & Hp & Hlast)%IH.
        exists (S n), s2. split; [lia|]. split; [by econstructor|].
        by rewrite Nat.add_succ_r.
      * intros [= <- <-]. exists 0, s. rewrite Nat.add_0_r.
        split; [lia|]. split; [constructor|done].
    + intros (n & s1 & Hn & Hp & Hlast). destruct Hp as [i s|i s s0 n s2 Hb Hp].
      * rewrite Nat.add_0_r in Hlast. by rewrite Hlast.
      * rewrite Hb. apply IH. exists n, s2. split; [lia|]. split; [done|].
        by rewrite Nat.add_succ_r in Hlast.
Qed.

(** The loop is still running when the fuel is spent exactly when every
    pass so far went on, or a pass is itself still running. *)
Lemma while_true_OutOfFuel fuel body i s s' :
  while_true fuel body i s = (s', OutOfFuel) ↔
  passes body i s fuel s' ∨
  ∃ n s1, n < fuel ∧ passes body i s n s1 ∧
    body (i + n) s1 = (s', OutOfFuel).
Proof.
  revert i s. induction fuel as [|fuel IH]; intros i s.
  - simpl. unfold lift. split.
    + intros [= <-]. left. constructor.
    + intros [Hp|(n & s1 & Hn & _)]; [|lia]. by inversion Hp.
  - rewrite while_true_unfold. split.
    + destruct (body i s) as [s1 [[]|e'|]] eqn:Hbody; [done| |done|].
      * intros [Hp|(n & s2 & Hn & Hp & Hlast)]%IH.
        -- left. by econstructor.
        -- right. exists (S n), s2. split; [lia|]. split; [by econstructor|].
           by rewrite Nat.add_succ_r.
      * intros [= <-]. right. exists 0, s. rewrite Nat.add_0_r.
        split; [lia|]. split; [constructor|done].
    + intros [Hp|(n & s1 & Hn & Hp & Hlast)].
      * inversion Hp as [|? ? s0 ? ? Hb Hp']; subst. rewrite Hb.
        apply IH. by left.
      * destruct Hp as [i s|i s s0 n s2 Hb Hp].
        -- rewrite Nat.add_0_r in Hlast. by rewrite Hlast.
        -- rewrite Hb. apply IH. right. exists n, s2.
           split; [lia|]. split; [done|].
           by rewrite Nat.add_succ_r in Hlast.
Qed.

(** Sequences and loops over lists of computations without [while] loops
    have none. *)
Lemma fuel_free_bind {A B} (m : Py St A) (k : A → Py St B) :
  fuel_free m → (∀ a, fuel_free (k a)) → fuel_free (m ≫= k).
Proof.
  intros Hm Hk s. unfold mbind, Py_bind. specialize (Hm s).
  destruct (m s) as [s1 [a| |]]; simpl in *; [apply Hk|done..].
Qed.

Lemma fuel_free_lift {A} (o : outcome A) :
  o ≠ OutOfFuel → fuel_free (lift o : Py St A).
Proof. by intros Ho s. Qed.

Lemma fuel_free_for_acc {A B} (xs : list A) (acc : B)
    (body : A → B → Py St B) :
  (∀ x c, fuel_free (body x c)) → fuel_free (for_acc xs acc body).
Proof.
  intros Hbody. revert acc. induction xs as [|x xs IH]; intros acc; simpl.
  - by intros s.
  - apply fuel_free_bind; [apply Hbody|]. intros c. apply IH.
Qed.

Lemma fuel_free_map_py {A B} (f : A → Py St B) (xs : list A) :
  (∀ x, fuel_free (f x)) → fuel_free (map_py f xs).
Proof.
  intros Hf. induction xs as [|x xs IH]; simpl.
  - by intros s.
  - apply fuel_free_bind; [apply Hf|]. intros y.
    apply fuel_free_bind; [apply IH|]. by intros ys s.
Qed.
End LoopOutcomes.

Section AbsDiffFacts.
Context `{F : PyFloat} {E : ExactArith F}.
Implicit Types x y : num.

Add Ring num_ring' : exact_ring.
Local Open Scope num_scope.

Lemma fabs_sub_comm x y : fabs (x - y) = fabs (y - x).
Proof.
  pose proof exact_order as HO.
  rewrite !fabs_def.
  destruct (flt (x - y) 0) eqn:H1; destruct (flt (y - x) 0) eqn:H2.
  - apply (fadd_lt_mono _ _ y) in H1. apply (fadd_lt_mono _ _ x) in H2.
    replace (x - y + y) with x in H1 by ring.
    replace (0 + y) with y in H1 by ring.
    replace (y - x + x) with y in H2 by ring.
    replace (0 + x) with x in H2 by ring.
    by rewrite (flt_asym _ _ H1) in H2.
  - ring.
  - ring.
  - assert (x - y = 0) as Hz.
    { apply flt_total; [done|]. apply not_true_is_false. intros H3.
      apply (fadd_lt_mono _ _ (y - x)) in H3.
      replace (0 + (y - x)) with (y - x) in H3 by ring.
      replace (x - y + (y - x)) with 0 in H3 by ring. congruence. }
    replace (y - x) with (0 - (x - y)) by ring. rewrite Hz. ring.
Qed.

Lemma elem_of_abs_diff (a b : ndarray num) e :
  e ∈ concat (data (np.abs_diff a b)) ↔
  ∃ s x y, getitem2 a s = Return x ∧ getitem2 b s = Return y ∧
    e = fabs (x - y).
Proof.
  rewrite list_elem_of_In, in_concat. simpl. split.
  - intros (row & Hrow%list_elem_of_In & He%list_elem_of_In).
    apply elem_of_lookup_zip_with in Hrow as (i & ra & rb & -> & Ha & Hb).
    apply elem_of_lookup_zip_with in He as (j & x & y & -> & Hx & Hy).
    exists (i, j), x, y. unfold getitem2. simpl. by rewrite Ha, Hb, Hx, Hy.
  - intros ([i j] & x & y & Hx & Hy & ->). unfold getitem2 in *. simpl in *.
    destruct (data a !! i) as [ra|] eqn:Ha; [|done].
    destruct (data b !! i) as [rb|] eqn:Hb; [|done].
    destruct (ra !! j) as [x'|] eqn:Hx'; [|done].
    destruct (rb !! j) as [y'|] eqn:Hy'; [|done].
    simpl in *. injection Hx as ->. injection Hy as ->.
    exists (zip_with (λ x y, fabs (x - y)) ra rb).
    rewrite <-!list_elem_of_In. split.
    + apply elem_of_lookup_zip_with. eauto 10.
    + apply elem_of_lookup_zip_with. eauto 10.
Qed.

(** [max_diff] is the maximum over all states of [|V_new(s) - V_old(s)|]. *)
Lemma max_diff_is_max (V_old V_new : ndarray num) d :
  max_diff V_old V_new = Return d → is_max_abs_diff V_old V_new d.
Proof.
  pose proof exact_order as HO.
  unfold max_diff, np.max2. intros [Hin Hall]%np_max_greatest. split.
  - apply elem_of_abs_diff in Hin as (s & x & y & Hx & Hy & ->).
    exists s, x, y. by rewrite fabs_sub_comm.
  - intros s x y Hx Hy. rewrite fabs_sub_comm. apply Hall.
    apply elem_of_abs_diff. eauto 10.
Qed.
End AbsDiffFacts.

Section EvaluationFacts.
Context `{F : PyFloat}.
Variable mdp : MDP.
Variable T : nat → nat → Z → nat → nat → num * num.
Implicit Types (g : Globals) (gamma theta : num).

Lemma show_progress_Return visualize_each i g :
  ∃ out, show_progress visualize_each i g
         = ({| pi := pi g; V := V g; stdout := stdout g ++ out |}, Return tt).
Proof.
  unfold show_progress, emit. py_unfold.
  destruct (_ && _); simpl.
  - eexists. by rewrite <-!app_assoc.
  - exists []. rewrite app_nil_r. by destruct g.
Qed.

(** A pass of the evaluation loop: progress display, sweep, [max_diff],
    threshold test. *)
Lemma evaluation_pass_Return gamma theta visualize_each i g g' stop :
  evaluation_pass mdp T gamma theta visualize_each i g = (g', Return stop) ↔
  ∃ g0 g1 d,
    show_progress visualize_each i g = (g0, Return tt) ∧
    sweep mdp T gamma g0 = (g1, Return tt) ∧
    max_diff (V g) (V g1) = Return d ∧
    stop = flt d theta ∧
    g' = if stop
         then {| pi := pi g1; V := V g1;
                 stdout := stdout g1
                           ++ [print_policy_evaluation_finished (i + 1)] |}
         else g1.
Proof.
  destruct (show_progress_Return visualize_each i g) as [out Hshow].
  unfold evaluation_pass, emit. py_unfold. rewrite Hshow. simpl.
  unfold np.copy. split.
  - destruct (sweep _ _ _ _) as [g1 [[]| |]] eqn:Hsweep; simpl; [|done..].
    destruct (max_diff _ _) as [d| |] eqn:Hd; simpl; [|done..].
    destruct (flt d theta) eqn:Hlt; simpl; intros [= <- <-].
    + eexists _, g1, d. rewrite Hlt. eauto.
    + eexists _, g1, d. rewrite Hlt. eauto.
  - intros (g0 & g1 & d & [= <-] & Hsweep & Hd & -> & ->).
    rewrite Hsweep. simpl. rewrite Hd. simpl.
    by destruct (flt d theta).
Qed.
End EvaluationFacts.

Section EvaluationClaims.
Context `{F : PyFloat}.
Variable mdp : MDP.
Variable T : nat → nat → Z → nat → nat → num * num.
Implicit Types (g : Globals) (gamma theta : num).

(** C5, as amended.  A call of [policy_evaluation] that returns leaves in
    the global [V] the table of its last sweep, which moved no state by
    [theta] or more (the converged table, mutated in place), has printed
    as its last line the count of the sweeps performed, and returns no
    value to the caller ([None]). *)
Theorem policy_evaluation_output fuel gamma theta (visualize_each : Z)
    g g' (r : unit) :
  policy_evaluation mdp T fuel gamma theta visualize_each g
  = (g', Return r) →
  ∃ n g1 d,
    passes (evaluation_pass mdp T gamma theta visualize_each) 0 g n g1 ∧
    (∃ g0, show_progress visualize_each n g1 = (g0, Return tt) ∧
           V g' = V (sweep mdp T gamma g0).1) ∧
    max_diff (V g1) (V g') = Return d ∧
    flt d theta = true ∧
    list.last (stdout g') = Some (print_policy_evaluation_finished (n + 1)) ∧
    r = tt.
Proof.
  destruct r. intros (n & g1 & _ & Hp & Hlast)%while_true_Return.
  apply evaluation_pass_Return in Hlast
    as (g0 & g2 & d & Hshow & Hsweep & Hd & Hstop & ->).
  simpl. exists n, g1, d.
  split; [done|]. split; [exists g0; by rewrite Hsweep|].
  by rewrite last_snoc.
Qed.
End EvaluationClaims.

Section ReadOnlyFacts.
Context {St B : Type} (view : St → B).

Lemma read_only_ret {A} (a : A) : read_only view (ret a : Py St A).
Proof. done. Qed.

Lemma read_only_lift {A} (o : outcome A) : read_only view (lift o : Py St A).
Proof. done. Qed.

Lemma read_only_gets : read_only view (gets view).
Proof. intros s. split; [done|]. intros s' Hs. unfold gets. simpl. by rewrite Hs. Qed.

Lemma read_only_bind {A C} (m : Py St A) (k : A → Py St C) :
  read_only view m → (∀ a, read_only view (k a)) → read_only view (m ≫= k).
Proof.
  intros Hm Hk s. unfold mbind, Py_bind.
  destruct (Hm s) as [Hs Hv]. split.
  - destruct (m s) as [s1 [a| |]]; simpl in *; subst; [apply Hk|done..].
  - intros s' Hview. specialize (Hv s' Hview).
    destruct (Hm s') as [Hs' _].
    destruct (m s) as [s1 o1], (m s') as [s1' o1']. simpl in *.
    subst s1 s1' o1'. destruct o1 as [a| |]; [|done..]. by apply Hk.
Qed.

Lemma read_only_for_acc {A C} (xs : list A) (acc : C) (body : A → C → Py St C) :
  (∀ x c, read_only view (body x c)) → read_only view (for_acc xs acc body).
Proof.
  intros Hbody. revert acc. induction xs as [|x xs IH]; intros acc; simpl.
  - apply read_only_ret.
  - apply read_only_bind; [apply Hbody|]. intros c. apply IH.
Qed.

Lemma read_only_map_py {A C} (f : A → Py St C) (xs : list A) :
  (∀ x, read_only view (f x)) → read_only view (map_py f xs).
Proof.
  intros Hf. induction xs as [|x xs IH]; simpl.
  - apply read_only_ret.
  - apply read_only_bind; [apply Hf|]. intros y.
    apply read_only_bind; [apply IH|]. intros ys. apply read_only_ret.
Qed.

End ReadOnlyFacts.

Section ArgmaxFacts.
Context `{F : PyFloat} {O : FloatOrder F}.
Implicit Types (l : list num).

Lemma argmax_from_spec pre ys bi bv :
  bi < length pre →
  (pre ++ ys) !! bi = Some bv →
  (∀ j qj, j < length pre → (pre ++ ys) !! j = Some qj → fle qj bv) →
  (∀ j qj, j < bi → (pre ++ ys) !! j = Some qj → flt qj bv = true) →
  ∃ qk, (pre ++ ys) !! np.argmax_from bi bv (length pre) ys = Some qk ∧
    (∀ j qj, (pre ++ ys) !! j = Some qj → fle qj qk) ∧
    (∀ j qj, j < np.argmax_from bi bv (length pre) ys →
       (pre ++ ys) !! j = Some qj → flt qj qk = true).
Proof.
  revert pre bi bv. induction ys as [|y ys IH]; intros pre bi bv Hbi Hbv Hmax Hfirst.
  - simpl. exists bv. split; [done|]. split; [|done].
    intros j qj Hj. apply (Hmax j); [|done].
    apply lookup_lt_Some in Hj. by rewrite app_nil_r in Hj.
  - simpl.
    assert ((pre ++ y :: ys) = (pre ++ [y]) ++ ys) as Heq
      by by rewrite <-app_assoc.
    assert (length (pre ++ [y]) = S (length pre)) as Hlen
      by (rewrite length_app; simpl; lia).
    assert ((pre ++ y :: ys) !! length pre = Some y) as Hy
      by by rewrite lookup_app_r, Nat.sub_diag by lia.
    destruct (flt bv y) eqn:Hlt.
    + rewrite Heq, <-Hlen. apply IH.
      * rewrite Hlen. lia.
      * by rewrite <-Heq.
      * intros j qj Hj Hq. rewrite <-Heq in Hq. rewrite Hlen in Hj.
        destruct (decide (j = length pre)) as [->|Hne].
        { rewrite Hy in Hq. injection Hq as <-. apply fle_refl. }
        eapply fle_trans; [apply (Hmax j); [lia|done]|]. by apply flt_asym.
      * intros j qj Hj Hq. rewrite <-Heq in Hq.
        destruct (decide (j < bi)) as [Hjb|Hjb].
        { eapply flt_trans; [by eapply Hfirst|done]. }
        destruct (decide (j = bi)) as [->|Hne]; [congruence|].
        destruct (flt qj y) eqn:Hqy; [done|].
        assert (fle qj bv) as Hle by (apply (Hmax j); [lia|done]).
        destruct (flt y qj) eqn:Hyq.
        { unfold fle in Hle. by rewrite (flt_trans bv y qj) in Hle. }
        rewrite (flt_total _ _ Hqy Hyq) in Hle. unfold fle in Hle. congruence.
    + rewrite Heq, <-Hlen. apply IH.
      * rewrite Hlen. lia.
      * by rewrite <-Heq.
      * intros j qj Hj Hq. rewrite <-Heq in Hq. rewrite Hlen in Hj.
        destruct (decide (j = length pre)) as [->|Hne].
        { rewrite Hy in Hq. by injection Hq as <-. }
        apply (Hmax j); [lia|done].
      * intros j qj Hj Hq. rewrite <-Heq in Hq. by eapply Hfirst.
Qed.

(** [np.argmax] answers the first index that holds the maximum. *)
Lemma np_argmax_first l k :
  np.argmax l = Return k →
  ∃ qk, l !! k = Some qk ∧
    (∀ j qj, l !! j = Some qj → fle qj qk) ∧
    (∀ j qj, j < k → l !! j = Some qj → flt qj qk = true).
Proof.
  destruct l as [|x xs]; [done|]. simpl. intros [= <-].
  apply (argmax_from_spec [x] xs 0 x); simpl; [lia|done| |lia].
  intros [|j] qj Hj; [|lia]. simpl. intros [= <-]. apply fle_refl.
Qed.
End ArgmaxFacts.

Section ImprovementFacts.
Context `{F : PyFloat}.
Variable mdp : MDP.
Variable T : nat → nat → Z → nat → nat → num * num.
Implicit Types (g : Globals) (gamma : num) (s : nat * nat).

(** [q_value] and the choice of the best action only read the value
    table. *)
Lemma q_value_read_only n1 n2 action gamma :
  read_only V (q_value mdp T n1 n2 action gamma).
Proof.
  unfold q_value. apply read_only_for_acc. intros [n1_ n2_] q.
  destruct (T n1 n2 action n1_ n2_) as [p r].
  apply read_only_bind; [apply read_only_gets|]. intros v.
  apply read_only_bind; [apply read_only_lift|]. intros x.
  apply read_only_ret.
Qed.

Lemma best_action_read_only gamma n1 n2 :
  read_only V (best_action mdp T gamma n1 n2).
Proof.
  unfold best_action.
  apply read_only_bind;
    [apply read_only_map_py; intros a; apply q_value_read_only|].
  intros qs. apply read_only_bind; [apply read_only_lift|].
  intros k. apply read_only_lift.
Qed.


(** Improving a state writes its best action into the policy and touches
    no other entry, nor the value table. *)
Lemma improve_state_Return gamma s changed g g' changed' :
  improve_state mdp T gamma s changed g = (g', Return changed') →
  ∃ best_a,
    (best_action mdp T gamma s.1 s.2 g).2 = Return best_a ∧
    V g' = V g ∧
    getitem2 (pi g') s = Return best_a ∧
    ∀ s', s' ≠ s → getitem2 (pi g') s' = getitem2 (pi g) s'.
Proof.
  unfold improve_state. py_unfold.
  destruct (best_action_read_only gamma s.1 s.2 g) as [Hg _].
  destruct (best_action _ _ _ _ _ g) as [g1 [best_a| |]]; simpl in *;
    subst; [|done..].
  destruct (getitem2 (pi g) s) as [a| |] eqn:Ha; simpl; [|done..].
  case_bool_decide as Hne; simpl.
  - destruct (setitem2 (pi g) s best_a) as [p'| |] eqn:Hp; simpl; [|done..].
    intros [= <- <-]. exists best_a. simpl.
    split; [done|]. split; [done|].
    split; [by eapply getitem2_setitem2_eq|].
    intros s' Hs'. by eapply getitem2_setitem2_ne.
  - intros [= <- <-]. exists best_a.
    subst. eauto.
Qed.

(** The sweep of [policy_improvement] over the states [xs]. *)
Lemma policy_improvement_loop gamma xs changed g g' changed' :
  for_acc xs changed (improve_state mdp T gamma) g = (g', Return changed') →
  V g' = V g ∧
  (∀ s, s ∉ xs → getitem2 (pi g') s = getitem2 (pi g) s) ∧
  (∀ s, s ∈ xs →
     ∃ best_a, (best_action mdp T gamma s.1 s.2 g).2 = Return best_a ∧
       getitem2 (pi g') s = Return best_a).
Proof.
  revert changed g. induction xs as [|x xs IH]; intros changed g; simpl.
  - intros [= <- <-]. split; [done|]. split; [done|]. by intros s ?%elem_of_nil.
  - unfold mbind, Py_bind.
    destruct (improve_state _ _ _ x changed g) as [g1 [c1| |]] eqn:Hx;
      [|done..].
    intros (HV & Hout & Hin)%IH.
    apply improve_state_Return in Hx as (best_x & Hbest & HV1 & Hpi & Hframe).
    split; [congruence|]. split.
    + intros s [Hsx Hs]%not_elem_of_cons. rewrite Hout by done. by apply Hframe.
    + intros s Hs. destruct (decide (s ∈ xs)) as [Hsxs|Hsxs].
      * destruct (Hin s Hsxs) as (best_a & Hb & Hpi').
        exists best_a. split; [|done]. rewrite <-Hb. symmetry.
        by apply best_action_read_only.
      * apply elem_of_cons in Hs as [->|Hs]; [|done].
        exists best_x. split; [done|]. by rewrite Hout.
Qed.

End ImprovementFacts.

Section SweepClaims.
Context `{F : PyFloat}.
Variable mdp : MDP.
Variable T : nat → nat → Z → nat → nat → num * num.
Implicit Types (g : Globals) (gamma theta : num) (s : nat * nat).

(** The body of the sweep at one state. *)
Lemma evaluate_state_step gamma s g g1 :
  evaluate_state mdp T gamma s g = (g1, Return tt) →
  sweep_step mdp T gamma s g g1.
Proof.
  unfold evaluate_state, sweep_step. py_unfold. simpl.
  destruct (getitem2 (pi g) s) as [a| |] eqn:Ha; simpl; [|done..].
  destruct (q_value_read_only mdp T s.1 s.2 a gamma g) as [Hg _].
  destruct (q_value mdp T s.1 s.2 a gamma g) as [g0 [q| |]] eqn:Hq;
    simpl in *; subst; [|done..].
  destruct (setitem2 (V g) s q) as [v'| |] eqn:Hset; simpl; [|done..].
  intros [= <-]. exists a, q. simpl.
  split; [done|]. split; [by rewrite Hq|].
  split; [by eapply getitem2_setitem2_eq|].
  split; [|done]. intros s' Hs'. by eapply getitem2_setitem2_ne.
Qed.

(** The [for] loop of a pass is a full sweep. *)
Lemma sweep_swept gamma ss g g1 :
  for_ ss (evaluate_state mdp T gamma) g = (g1, Return tt) →
  swept mdp T gamma ss g g1.
Proof.
  revert g. induction ss as [|s ss IH]; intros g; simpl.
  - intros [= <-]. constructor.
  - unfold mbind, Py_bind.
    destruct (evaluate_state mdp T gamma s g) as [g0 [[]| |]] eqn:Hs;
      [|done..].
    intros Hrest. econstructor; [by apply evaluate_state_step|by apply IH].
Qed.

(** [max_diff] is the maximum over all states of [|V_new(s) - V_old(s)|],
    where [<] is a strict total order and [|x - y| = |y - x|]. *)
Lemma max_diff_greatest {O : FloatOrder F} (V_old V_new : ndarray num) d :
  (∀ x y : num, fabs (fsub x y) = fabs (fsub y x)) →
  max_diff V_old V_new = Return d → is_max_abs_diff V_old V_new d.
Proof.
  intros Habs. unfold max_diff, np.max2.
  intros [Hin Hall]%np_max_greatest. split.
  - apply elem_of_abs_diff in Hin as (s & x & y & Hx & Hy & ->).
    exists s, x, y. by rewrite Habs.
  - intros s x y Hx Hy. rewrite Habs. apply Hall.
    apply elem_of_abs_diff. eauto 10.
Qed.

(** C2. [policy_evaluation] runs passes of its loop body.  Every pass
    performs a full sweep: one step at every state of [states_iter], in
    order, each replacing the state's entry of [V] on the table as the
    step before left it.  It then takes [max_diff] between the table before
    the sweep and the table after it, and breaks exactly when
    [max_diff < theta] (first part).  Where [<] is a strict total order and
    [|x - y| = |y - x|], [max_diff] is the maximum over all states [s] of
    [|V_new(s) - V_old(s)|] (second part).  The call returns exactly at the
    first pass that breaks (third part), and after any number of passes
    that did not break it goes on: no count of sweeps stops it (fourth
    part). *)
Theorem policy_evaluation_threshold gamma theta (visualize_each : Z) :
  (∀ i g g' stop,
     evaluation_pass mdp T gamma theta visualize_each i g
     = (g', Return stop) →
     ∃ g0 g1 d,
       show_progress visualize_each i g = (g0, Return tt) ∧
       V g0 = V g ∧ pi g0 = pi g ∧
       swept mdp T gamma (states_iter mdp) g0 g1 ∧
       V g' = V g1 ∧ pi g' = pi g1 ∧
       max_diff (V g) (V g') = Return d ∧
       stop = flt d theta) ∧
  (FloatOrder F →
   (∀ x y : num, fabs (fsub x y) = fabs (fsub y x)) →
   ∀ (V_old V_new : ndarray num) d,
     max_diff V_old V_new = Return d → is_max_abs_diff V_old V_new d) ∧
  (∀ fuel g g',
     policy_evaluation mdp T fuel gamma theta visualize_each g
     = (g', Return tt) ↔
     ∃ n g1, n < fuel ∧
       passes (evaluation_pass mdp T gamma theta visualize_each) 0 g n g1 ∧
       evaluation_pass mdp T gamma theta visualize_each n g1
       = (g', Return true)) ∧
  (∀ n g g1,
     passes (evaluation_pass mdp T gamma theta visualize_each) 0 g n g1 →
     ∀ k, policy_evaluation mdp T (n + k) gamma theta visualize_each g
          = while_true k
              (evaluation_pass mdp T gamma theta visualize_each) n g1).
Proof.
  split; [|split; [|split]].
  - intros i g g' stop
      (g0 & g1 & d & Hshow & Hsweep & Hd & -> & ->)%evaluation_pass_Return.
    destruct (show_progress_Return visualize_each i g) as [out Hshow'].
    rewrite Hshow' in Hshow. injection Hshow as <-.
    apply sweep_swept in Hsweep.
    exists {| pi := pi g; V := V g; stdout := stdout g ++ out |}, g1, d.
    by destruct (flt d theta).
  - intros HO Habs V_old V_new d. by apply max_diff_greatest.
  - intros fuel g g'. apply while_true_Return.
  - intros n g g1 Hp k. by apply while_true_passes.
Qed.
End SweepClaims.

Section IterationFacts.
Context `{F : PyFloat}.
Variable mdp : MDP.
Variable T : nat → nat → Z → nat → nat → num * num.
Implicit Types (g : Globals) (gamma theta : num).

(** A pass of the iteration loop: evaluation, improvement, stability
    test. *)
Lemma iteration_pass_Return fuel gamma theta i g g' stop :
  iteration_pass mdp T fuel gamma theta i g = (g', Return stop) ↔
  ∃ g1 g2 changed,
    policy_evaluation mdp T fuel gamma theta 0 (announced i g)
    = (g1, Return tt) ∧
    policy_improvement mdp T gamma g1 = (g2, Return changed) ∧
    stop = negb changed ∧
    g' = if stop then finished i g2 else g2.
Proof.
  unfold iteration_pass, emit, announced, finished. py_unfold. simpl.
  rewrite <-!app_assoc. simpl. split.
  - destruct (policy_evaluation _ _ _ _ _ _ _) as [g1 [[]| |]] eqn:He;
      simpl; [|done..].
    destruct (policy_improvement _ _ _ _) as [g2 [changed| |]] eqn:Hi;
      simpl; [|done..].
    destruct changed; simpl; intros [= <- <-].
    + by exists g1, g2, true.
    + exists g1, g2, false. by rewrite <-app_assoc.
  - intros (g1 & g2 & changed & -> & Hi & -> & ->). simpl. rewrite Hi.
    destruct changed; simpl; [done|]. by rewrite <-app_assoc.
Qed.

Lemma iteration_pass_evaluating fuel gamma theta i g :
  (policy_evaluation mdp T fuel gamma theta 0 (announced i g)).2 = OutOfFuel →
  (iteration_pass mdp T fuel gamma theta i g).2 = OutOfFuel.
Proof.
  unfold iteration_pass, emit, announced. py_unfold. simpl.
  rewrite <-!app_assoc. simpl.
  destruct (policy_evaluation _ _ _ _ _ _ _) as [g1 o]. simpl.
  by intros ->.
Qed.
(** A call that ended with some fuel ends the same way with more. *)
Lemma policy_evaluation_mono fuel fuel' gamma theta visualize_each g :
  fuel ≤ fuel' →
  (policy_evaluation mdp T fuel gamma theta visualize_each g).2 ≠ OutOfFuel →
  policy_evaluation mdp T fuel' gamma theta visualize_each g
  = policy_evaluation mdp T fuel gamma theta visualize_each g.
Proof. apply while_true_mono. Qed.

Lemma iteration_pass_mono fuel fuel' gamma theta i g :
  fuel ≤ fuel' →
  (iteration_pass mdp T fuel gamma theta i g).2 ≠ OutOfFuel →
  iteration_pass mdp T fuel' gamma theta i g
  = iteration_pass mdp T fuel gamma theta i g.
Proof.
  intros Hle. unfold iteration_pass, emit. py_unfold. simpl.
  pose proof (policy_evaluation_mono fuel fuel' gamma theta 0
    {| pi := pi g; V := V g;
       stdout := ((stdout g ++ [print_policy_iteration_step i])
                  ++ [visualize (Some (pi g)) (Some (V g))])
                 ++ [plt_pause] |} Hle) as Hmono.
  destruct (policy_evaluation mdp T fuel _ _ _ _) as [g1 o] eqn:He.
  destruct o as [[]| |]; simpl in *.
  - intros _. by rewrite Hmono.
  - intros _. by rewrite Hmono.
  - done.
Qed.

Lemma policy_iteration_mono fuel fuel' gamma theta g :
  fuel ≤ fuel' →
  (policy_iteration mdp T fuel gamma theta g).2 ≠ OutOfFuel →
  policy_iteration mdp T fuel' gamma theta g
  = policy_iteration mdp T fuel gamma theta g.
Proof.
  intros Hle. apply while_true_mono2; [done|].
  intros i s. by apply iteration_pass_mono.
Qed.
End IterationFacts.

(** ** The rationals satisfy the laws *)

Section QcFacts.
Local Open Scope Qc_scope.

Lemma QcFloat_flt (x y : Qc) : @flt QcFloat x y = bool_decide (x < y).
Proof. done. Qed.

Lemma QcFloat_order : FloatOrder QcFloat.
Proof.
  split; simpl.
  - intros x. apply bool_decide_eq_false. apply (irreflexivity Qclt).
  - intros x y z Hxy%bool_decide_eq_true Hyz%bool_decide_eq_true.
    apply bool_decide_eq_true. by eapply Qclt_trans.
  - intros x y Hxy%bool_decide_eq_false Hyx%bool_decide_eq_false.
    apply Qcle_antisym; by apply Qcnot_lt_le.
Qed.

Lemma QcFloat_exact : ExactArith QcFloat.
Proof.
  split; simpl.
  - apply QcFloat_order.
  - rewrite Z2Qc_inj_0, Z2Qc_inj_1.
    destruct Qcrt. split; try done; intros; ring.
  - intros x y z Hxy%bool_decide_eq_true. apply bool_decide_eq_true.
    by apply Qcplus_lt_mono_r.
  - rewrite Z2Qc_inj_0.
    intros x y Hx%bool_decide_eq_true Hy%bool_decide_eq_true.
    apply bool_decide_eq_true. by apply Qcmult_pos_pos.
  - rewrite Z2Qc_inj_0. intros x. case_bool_decide as Hx.
    + rewrite Qcabs_neg by by apply Qclt_le_weak. ring.
    + apply Qcabs_pos. by apply Qcnot_lt_le.
Qed.

Lemma Qc_of_Z_abs n : Qcabs (Qc_of_Z n) = Qc_of_Z (Z.abs n).
Proof.
  destruct (Z.abs_spec n) as [[Hn ->]|[Hn ->]].
  - apply Qcabs_pos. rewrite <-Z2Qc_inj_0.
    by apply (proj1 (Z2Qc_inj_le 0 n)).
  - rewrite Z2Qc_inj_opp. apply Qcabs_neg. rewrite <-Z2Qc_inj_0.
    apply (proj1 (Z2Qc_inj_le n 0)). lia.
Qed.

Lemma Qc_of_Z_lt n m : bool_decide (Qc_of_Z n < Qc_of_Z m) = bool_decide (n < m)%Z.
Proof. apply bool_decide_ext. by rewrite <-Z2Qc_inj_lt. Qed.
End QcFacts.

Section ChainFacts.
Import Sample.
#[local] Existing Instance QcFloat.

Ltac chain_compute :=
  repeat (progress (py_unfold;
    cbn -[Qcplus Qcmult Qcminus Qcabs Qclt Qc_of_Z Qc_lt_dec]));
  repeat (rewrite <-Z2Qc_inj_mul || rewrite <-Z2Qc_inj_add
          || rewrite <-Z2Qc_inj_sub || rewrite Qc_of_Z_abs
          || rewrite Qc_of_Z_lt).

Lemma chain_sweep_grows z out :
  sweep chain chain_T (of_int 2) (chain_at z out)
  = (chain_at (2 * z + 1) out, Return tt).
Proof.
  unfold sweep, evaluate_state, q_value, chain_at, chain, chain_T, set_V.
  chain_compute.
  apply (f_equal2 (λ a b : Z,
    ({| pi := np.zeros 0%Z (1, 2);
        V := mk_ndarray (1, 2) [[of_int a; of_int b]];
        stdout := out |}, Return tt))); lia.
Qed.

Lemma chain_max_diff_grows z :
  (0 ≤ z)%Z →
  max_diff (V (chain_at z [])) (V (chain_at (2 * z + 1) []))
  = Return (of_int (z + 1)).
Proof.
  intros Hz. unfold max_diff, np.max2, np.abs_diff, np.max, np.maximum.
  chain_compute. rewrite bool_decide_eq_false_2 by lia.
  f_equal. f_equal. lia.
Qed.

Lemma chain_pass_grows i z out :
  (0 ≤ z)%Z →
  evaluation_pass chain chain_T (of_int 2) (of_int 1) 0 i (chain_at z out)
  = (chain_at (2 * z + 1) out, Return false).
Proof.
  intros Hz. apply evaluation_pass_Return.
  exists (chain_at z out), (chain_at (2 * z + 1) out), (of_int (z + 1)).
  split; [done|]. split; [apply chain_sweep_grows|].
  split; [by apply chain_max_diff_grows|].
  assert (flt (of_int (z + 1)) (of_int 1) = false) as ->; [|done].
  simpl. rewrite Qc_of_Z_lt. apply bool_decide_eq_false_2. lia.
Qed.

(** On the chain with discount [2] and threshold [1] the value of [A]
    doubles at every sweep: the evaluation loop never ends. *)
Lemma chain_evaluation_runs_on fuel i z out :
  (0 ≤ z)%Z →
  (while_true fuel
     (evaluation_pass chain chain_T (of_int 2) (of_int 1) 0) i
     (chain_at z out)).2 = OutOfFuel.
Proof.
  revert i z. induction fuel as [|fuel IH]; intros i z Hz; [done|].
  rewrite while_true_unfold, chain_pass_grows by done. apply IH. lia.
Qed.

(** For every [n] the evaluation on that chain makes more than [n]
    sweeps. *)
Lemma chain_evaluation_passes n i z out :
  (0 ≤ z)%Z →
  ∃ z', (0 ≤ z')%Z ∧
    passes (evaluation_pass chain chain_T (of_int 2) (of_int 1) 0) i
      (chain_at z out) n (chain_at z' out).
Proof.
  revert i z. induction n as [|n IH]; intros i z Hz.
  - exists z. split; [done|]. constructor.
  - destruct (IH (S i) (2 * z + 1)%Z) as (z' & Hz' & Hp); [lia|].
    exists z'. split; [done|]. econstructor; [|done].
    by apply chain_pass_grows.
Qed.

Lemma chain_iteration_runs_on fuel :
  (policy_iteration chain chain_T fuel (of_int 2) (of_int 1) chain_start).2
  = OutOfFuel.
Proof.
  unfold policy_iteration. destruct fuel as [|fuel]; [done|].
  rewrite while_true_unfold.
  pose proof (iteration_pass_evaluating chain chain_T (S fuel)
    (of_int 2) (of_int 1) 0 chain_start
    (chain_evaluation_runs_on (S fuel) 0 0 _ (Z.le_refl 0))) as Hpass.
  destruct (iteration_pass _ _ _ _ _ _ _) as [g1 o1]. simpl in Hpass.
  by subst.
Qed.
End ChainFacts.

Section IterationOutcomes.
Context `{F : PyFloat}.
Variable mdp : MDP.
Variable T : nat → nat → Z → nat → nat → num * num.
Implicit Types (g : Globals) (gamma theta : num).

Lemma getitem2_ends {A} (a : ndarray A) ij : getitem2 a ij ≠ OutOfFuel.
Proof.
  unfold getitem2. destruct (data a !! ij.1) as [row|]; [|done].
  by destruct (row !! ij.2).
Qed.

Lemma setitem2_ends {A} (a : ndarray A) ij v : setitem2 a ij v ≠ OutOfFuel.
Proof.
  unfold setitem2. destruct (data a !! ij.1) as [row|]; [|done].
  by destruct (row !! ij.2).
Qed.

(** [policy_improvement] has no [while] loop. *)
Lemma policy_improvement_ends gamma :
  fuel_free (policy_improvement mdp T gamma).
Proof.
  unfold policy_improvement. apply fuel_free_for_acc. intros s changed.
  unfold improve_state. apply fuel_free_bind.
  - unfold best_action. apply fuel_free_bind.
    + apply fuel_free_map_py. intros a. unfold q_value.
      apply fuel_free_for_acc. intros [n1_ n2_] q.
      destruct (T s.1 s.2 a n1_ n2_) as [p r].
      apply fuel_free_bind; [by intros g|]. intros v.
      apply fuel_free_bind; [apply fuel_free_lift, getitem2_ends|].
      by intros x g.
    + intros qs. apply fuel_free_bind.
      * apply fuel_free_lift. by destruct qs.
      * intros k. apply fuel_free_lift.
        by destruct (actions_in_state mdp s.1 s.2 !! k).
  - intros best_a. apply fuel_free_bind; [by intros g|]. intros p.
    apply fuel_free_bind; [apply fuel_free_lift, getitem2_ends|]. intros a.
    case_bool_decide; [|by intros g].
    apply fuel_free_bind; [apply fuel_free_lift, setitem2_ends|]. intros p'.
    apply fuel_free_bind; by intros.
Qed.

(** A pass of the iteration loop raises exactly when its evaluation or
    its improvement does. *)
Lemma iteration_pass_Raise fuel gamma theta i g g' e :
  iteration_pass mdp T fuel gamma theta i g = (g', Raise e) ↔
  policy_evaluation mdp T fuel gamma theta 0 (announced i g)
  = (g', Raise e) ∨
  ∃ g1,
    policy_evaluation mdp T fuel gamma theta 0 (announced i g)
    = (g1, Return tt) ∧
    policy_improvement mdp T gamma g1 = (g', Raise e).
Proof.
  unfold iteration_pass, emit, announced. py_unfold. simpl.
  rewrite <-!app_assoc. simpl.
  destruct (policy_evaluation _ _ _ _ _ _ _) as [g1 [[]|e1|]] eqn:He; simpl.
  - destruct (policy_improvement _ _ _ _) as [g2 [changed|e2|]] eqn:Hi; simpl.
    + split; [by destruct changed|].
      intros [?|(g3 & [= <-] & ?)]; [done|congruence].
    + split.
      * intros [= <- <-]. right. by exists g1.
      * intros [?|(g3 & [= <-] & ?)]; [done|congruence].
    + split; [done|]. intros [?|(g3 & [= <-] & ?)]; [done|congruence].
  - split; [intros [= <- <-]; by left|].
    intros [?|(g3 & ? & _)]; congruence.
  - split; [done|]. intros [?|(g3 & ? & _)]; congruence.
Qed.

(** A pass is still running exactly when its evaluation is. *)
Lemma iteration_pass_OutOfFuel fuel gamma theta i g g' :
  iteration_pass mdp T fuel gamma theta i g = (g', OutOfFuel) ↔
  policy_evaluation mdp T fuel gamma theta 0 (announced i g)
  = (g', OutOfFuel).
Proof.
  unfold iteration_pass, emit, announced. py_unfold. simpl.
  rewrite <-!app_assoc. simpl.
  destruct (policy_evaluation _ _ _ _ _ _ _) as [g1 [[]|e1|]] eqn:He; simpl;
    [|split; intros [= <-]; done..].
  pose proof (policy_improvement_ends gamma g1) as Hends.
  destruct (policy_improvement _ _ _ _) as [g2 [changed|e2|]] eqn:Hi;
    simpl in *; [by destruct changed|done|done].
Qed.
End IterationOutcomes.

Section IterationClaims.
Context `{F : PyFloat}.
Variable mdp : MDP.
Variable T : nat → nat → Z → nat → nat → num * num.
Implicit Types (g : Globals) (gamma theta : num).

(** C4, as amended.  [policy_iteration] imposes no iteration cap and
    reports no non-convergence.  A call returns exactly when it reaches a
    pass whose [policy_evaluation] returns and whose [policy_improvement]
    reports no change (first part); a pass lets the loop go on exactly when
    its evaluation returned and its improvement changed the policy (second
    part); after any number of such passes the loop starts the next one
    (third part).  A call ends with an exception exactly when the
    evaluation or the improvement of a pass raises it (fourth part).  In
    every other case the call is still running, however many passes it has
    made: all of them changed the policy, or the [policy_evaluation] of one
    is itself still running (fifth part). *)
Theorem policy_iteration_stops_when_stable gamma theta :
  (∀ fuel g g',
     policy_iteration mdp T fuel gamma theta g = (g', Return tt) ↔
     ∃ n g1 g2 g3, n < fuel ∧
       passes (iteration_pass mdp T fuel gamma theta) 0 g n g1 ∧
       policy_evaluation mdp T fuel gamma theta 0 (announced n g1)
       = (g2, Return tt) ∧
       policy_improvement mdp T gamma g2 = (g3, Return false) ∧
       g' = finished n g3) ∧
  (∀ fuel i g g',
     iteration_pass mdp T fuel gamma theta i g = (g', Return false) ↔
     ∃ g1,
       policy_evaluation mdp T fuel gamma theta 0 (announced i g)
       = (g1, Return tt) ∧
       policy_improvement mdp T gamma g1 = (g', Return true)) ∧
  (∀ n k g g1,
     passes (iteration_pass mdp T (n + k) gamma theta) 0 g n g1 →
     policy_iteration mdp T (n + k) gamma theta g
     = while_true k (iteration_pass mdp T (n + k) gamma theta) n g1) ∧
  (∀ fuel g g' e,
     policy_iteration mdp T fuel gamma theta g = (g', Raise e) ↔
     ∃ n g1, n < fuel ∧
       passes (iteration_pass mdp T fuel gamma theta) 0 g n g1 ∧
       (policy_evaluation mdp T fuel gamma theta 0 (announced n g1)
        = (g', Raise e) ∨
        ∃ g2,
          policy_evaluation mdp T fuel gamma theta 0 (announced n g1)
          = (g2, Return tt) ∧
          policy_improvement mdp T gamma g2 = (g', Raise e))) ∧
  (∀ fuel g g',
     policy_iteration mdp T fuel gamma theta g = (g', OutOfFuel) ↔
     passes (iteration_pass mdp T fuel gamma theta) 0 g fuel g' ∨
     ∃ n g1, n < fuel ∧
       passes (iteration_pass mdp T fuel gamma theta) 0 g n g1 ∧
       policy_evaluation mdp T fuel gamma theta 0 (announced n g1)
       = (g', OutOfFuel)).
Proof.
  split; [|split; [|split; [|split]]].
  - intros fuel g g'. unfold policy_iteration. rewrite while_true_Return.
    split.
    + intros (n & g1 & Hn & Hp & Hlast). simpl in Hlast.
      apply iteration_pass_Return in Hlast
        as (g2 & g3 & changed & He & Hi & Hstop & ->).
      destruct changed; [done|]. by exists n, g1, g2, g3.
    + intros (n & g1 & g2 & g3 & Hn & Hp & He & Hi & ->).
      exists n, g1. split; [done|]. split; [done|]. simpl.
      apply iteration_pass_Return. by exists g2, g3, false.
  - intros fuel i g g'. rewrite iteration_pass_Return. split.
    + intros (g1 & g2 & changed & He & Hi & Hstop & ->).
      destruct changed; [|done]. by exists g1.
    + intros (g1 & He & Hi). by exists g1, g', true.
  - intros n k g g1 Hp. unfold policy_iteration. by apply while_true_passes.
  - intros fuel g g' e. unfold policy_iteration. rewrite while_true_Raise.
    split.
    + intros (n & g1 & Hn & Hp & Hlast%iteration_pass_Raise). eauto.
    + intros (n & g1 & Hn & Hp & Hlast). exists n, g1.
      split; [done|]. split; [done|]. by apply iteration_pass_Raise.
  - intros fuel g g'. unfold policy_iteration. rewrite while_true_OutOfFuel.
    split.
    + intros [Hp|(n & g1 & Hn & Hp & Hlast%iteration_pass_OutOfFuel)];
        [by left|right; eauto].
    + intros [Hp|(n & g1 & Hn & Hp & Hlast)]; [by left|right].
      exists n, g1. split; [done|]. split; [done|].
      by apply iteration_pass_OutOfFuel.
Qed.
End IterationClaims.

Section SampleRuns.
Import Sample.
#[local] Existing Instance QcFloat.

(** C4, the claim as stated fails: on the two-state chain with discount
    [2] and threshold [1] no amount of fuel lets [policy_iteration] end;
    the call neither returns nor reports anything. *)
Lemma policy_iteration_chain_never_ends :
  ¬ ∃ fuel,
      (policy_iteration chain chain_T fuel (of_int 2) (of_int 1)
         chain_start).2 ≠ OutOfFuel.
Proof. intros [fuel Hend]. apply Hend, chain_iteration_runs_on. Qed.

(** C5, the claim as stated fails: the value returned by
    [policy_evaluation] does not carry the count of sweeps.  On the chain
    the call performs two sweeps for threshold [1] and one for threshold
    [2], and returns the same value, [None], both times. *)
Lemma policy_evaluation_returns_no_count :
  ¬ ∃ count_of : unit → nat,
      ∀ theta g' r n,
        policy_evaluation chain chain_T 5 (float_lit 9 1) theta 0 chain_start
        = (g', Return r) →
        list.last (stdout g') = Some (print_policy_evaluation_finished n) →
        count_of r = n.
Proof.
  intros [count_of Hcount].
  pose proof (Hcount (of_int 1)
    (policy_evaluation chain chain_T 5 (float_lit 9 1) (of_int 1) 0
       chain_start).1 tt 2) as H2.
  pose proof (Hcount (of_int 2)
    (policy_evaluation chain chain_T 5 (float_lit 9 1) (of_int 2) 0
       chain_start).1 tt 1) as H1.
  assert (count_of tt = 2) as E2 by (apply H2; reflexivity).
  assert (count_of tt = 1) as E1 by (apply H1; reflexivity).
  congruence.
Qed.
End SampleRuns.

Section RoundingRuns.
Import Rounding.

(** The step of the second episode on [steep], whatever the C library's
    [pow]: the learning rate is [1.0 ** (2 / 1.0) = 1.0], the old entry is
    [1e16], the call returns and the entry it writes is [0.0]. *)
Lemma steep_step rest :
  truediv (of_int (_episode_count (steep rest))) (_decay (steep rest))
  = Some (Z2float 2) ∧
  fpow (_lr (steep rest)) (Z2float 2) = Some (Z2float 1) ∧
  getitem2 (Q (steep rest)) (0, 0) = Return (Z2float (10 ^ 16)) ∧
  (on_step_taken 0 (closing rest 1) tt (steep rest)).2 = Return tt ∧
  getitem2 (Q (on_step_taken 0 (closing rest 1) tt (steep rest)).1) (0, 0)
  = Return (Z2float 0).
Proof. repeat split. Qed.

(** C9, the claim as stated fails on Python's floats.  On the learner with
    learning rate [1.0] whose entry holds [1e16], a terminal step with
    reward [1.0] has [α = 1.0], in [[0, 1]], and target [1.0]; the entry
    written, [1e16 + 1.0 * (1.0 - 1e16)], is [0.0], since [1.0 - 1e16]
    rounds to [-1e16].  That is neither [(1 - α) * 1e16 + α * 1.0 = 1.0] nor
    a value between the target and the old entry; and this for every C
    library [pow]. *)
Lemma on_step_taken_rounds_outside :
  ¬ ∃ rest,
      ∀ x α tgt q q' : @num (B64 rest),
        truediv (of_int (_episode_count (steep rest))) (_decay (steep rest))
        = Some x →
        fpow (_lr (steep rest)) x = Some α →
        is_td_target (steep rest) (closing rest 1) tgt →
        getitem2 (Q (steep rest)) (0, 0) = Return q →
        getitem2 (Q (on_step_taken 0 (closing rest 1) tt (steep rest)).1)
          (0, 0) = Return q' →
        fle (of_int 0) α → fle α (of_int 1) →
        q' = fadd (fmul (fsub (of_int 1) α) q) (fmul α tgt) ∨
        (fle q q' ∧ fle q' tgt) ∨ (fle tgt q' ∧ fle q' q).
Proof.
  intros [rest Hclaim].
  destruct (steep_step rest) as (Hx & Hα & Hq & _ & Hq').
  destruct (Hclaim _ _ (Z2float 1) _ _ Hx Hα eq_refl Hq Hq')
    as [Heq|[[Hle _]|[Hle _]]]; [reflexivity..| | |].
  - apply (f_equal (λ z, PrimFloat.ltb z (Z2float 1))) in Heq.
    vm_compute in Heq. discriminate.
  - vm_compute in Hle. discriminate.
  - vm_compute in Hle. discriminate.
Qed.
End RoundingRuns.

Section Witnesses.
Import Sample Updates.
#[local] Existing Instance QcFloat.

Lemma mind_well_shaped : well_shaped (Q mind).
Proof. split; [done|]. repeat constructor. Qed.

Lemma seasoned_target_is_td_target :
  is_td_target seasoned step_on seasoned_target.
Proof.
  exists [of_int 1; of_int 3], (of_int 3).
  split; [reflexivity|]. split; [|reflexivity].
  split; [right; left|].
  intros x [->|[->|[]%elem_of_nil]%elem_of_cons]%elem_of_cons; reflexivity.
Qed.

Lemma on_step_taken_td_update_witness :
  ∃ self',
    on_step_taken 0 step_on tt seasoned = (self', Return tt) ∧
    getitem2 (Q self') (0, 1)
    = Return (0 + rate * (seasoned_target - 0))%num.
Proof.
  apply (proj2 (on_step_taken_td_update (O := QcFloat_order) seasoned 0%Z
                  step_on tt)
           (1 / 1)%Qc rate seasoned_target 0%num).
  - reflexivity.
  - reflexivity.
  - apply seasoned_target_is_td_target.
  - reflexivity.
Defined.

Lemma episode_count_steps_witness :
  _episode_count (on_step_taken 0 step_end tt mind).1 = 2%Z ∧
  _episode_count (on_step_taken 0 step_on tt mind).1 = 1%Z.
Proof.
  destruct (@episode_count_steps QcFloat) as (_ & Hstep & Hon). split.
  - apply (Hstep mind 0%Z step_end tt). reflexivity.
  - apply (Hon mind 0%Z step_on tt). reflexivity.
Defined.

Lemma plan_scores_witness :
  ∃ scores,
    plan 1 true false (mind, samples)
    = ((mind, λ k, samples (2 + k)), Return scores) ∧
    length scores = 2 ∧
    ∀ a, a < 2 →
      ∃ q, getitem2 (Q mind) (1, a) = Return q ∧
        scores !! a = Some (q + samples a * (1 / 1)%Qc)%num.
Proof.
  apply (plan_scores mind samples 1 true false (1 / 1)%Qc).
  - apply mind_well_shaped.
  - simpl; lia.
  - reflexivity.
Defined.

Lemma on_step_taken_frame_witness :
  (0, 0) ≠ (state step_on, action step_on) ∧
  getitem2 (Q (on_step_taken 0 step_on tt mind).1) (0, 0)
  = getitem2 (Q mind) (0, 0).
Proof.
  assert ((0, 0) ≠ (state step_on, action step_on)) as Hne by discriminate.
  split; [exact Hne|].
  exact (on_step_taken_frame mind 0%Z step_on tt 0 0 Hne).
Defined.

Lemma on_step_taken_convex_witness :
  (∃ q', getitem2 (Q (on_step_taken 0 step_on tt seasoned).1) (0, 1)
         = Return q' ∧
     q' = ((1 - rate) * 0 + rate * seasoned_target)%num ∧
     ((fle 0%num q' ∧ fle q' seasoned_target) ∨
      (fle seasoned_target q' ∧ fle q' 0%num))) ∧
  Q (on_step_taken 0 step_end tt seasoned).1 = Q seasoned.
Proof.
  destruct (@on_step_taken_convex QcFloat QcFloat_exact)
    as [Hconvex Hfixed].
  split.
  - destruct (Hconvex seasoned (on_step_taken 0 step_on tt seasoned).1 0%Z
                step_on tt (1 / 1)%Qc rate seasoned_target 0%num)
      as (q' & Hq' & Heq & Hbetween).
    + reflexivity.
    + reflexivity.
    + reflexivity.
    + apply seasoned_target_is_td_target.
    + reflexivity.
    + exists q'. split; [exact Hq'|]. split; [exact Heq|].
      apply Hbetween; reflexivity.
  - apply (Hfixed seasoned (on_step_taken 0 step_end tt seasoned).1 0%Z
             step_end tt (of_int 1)).
    + reflexivity.
    + reflexivity.
    + reflexivity.
Defined.

Lemma policy_evaluation_threshold_witness :
  ∃ g0 g1 d,
    (show_progress 0 0 chain_start = (g0, Return tt) ∧
     V g0 = V chain_start ∧ pi g0 = pi chain_start ∧
     swept chain chain_T (float_lit 9 1) (states_iter chain) g0 g1 ∧
     V (evaluation_pass chain chain_T (float_lit 9 1) 1%num 0 0
          chain_start).1 = V g1 ∧
     pi (evaluation_pass chain chain_T (float_lit 9 1) 1%num 0 0
           chain_start).1 = pi g1 ∧
     max_diff (V chain_start)
       (V (evaluation_pass chain chain_T (float_lit 9 1) 1%num 0 0
             chain_start).1) = Return d ∧
     false = flt d 1%num) ∧
    is_max_abs_diff (V chain_start)
      (V (evaluation_pass chain chain_T (float_lit 9 1) 1%num 0 0
            chain_start).1) d.
Proof.
  destruct (policy_evaluation_threshold chain chain_T (float_lit 9 1)
              1%num 0) as (Hpass & Hmax & _ & _).
  destruct (Hpass 0 chain_start
              (evaluation_pass chain chain_T (float_lit 9 1) 1%num 0 0
                 chain_start).1 false)
    as (g0 & g1 & d & Hrun); [reflexivity|].
  exists g0, g1, d. split; [exact Hrun|].
  apply (Hmax QcFloat_order (@fabs_sub_comm QcFloat QcFloat_exact)).
  apply Hrun.
Defined.

Lemma policy_evaluation_output_witness :
  ∃ n g1 d,
    passes (evaluation_pass chain chain_T (float_lit 9 1) 1%num 0)
      0 chain_start n g1 ∧
    (∃ g0, show_progress 0 n g1 = (g0, Return tt) ∧
       V (policy_evaluation chain chain_T 5 (float_lit 9 1) 1%num 0
            chain_start).1
       = V (sweep chain chain_T (float_lit 9 1) g0).1) ∧
    max_diff (V g1)
      (V (policy_evaluation chain chain_T 5 (float_lit 9 1) 1%num 0
            chain_start).1) = Return d ∧
    flt d 1%num = true ∧
    list.last
      (stdout (policy_evaluation chain chain_T 5 (float_lit 9 1) 1%num 0
                 chain_start).1)
    = Some (print_policy_evaluation_finished (n + 1)) ∧
    tt = tt.
Proof.
  apply (policy_evaluation_output chain chain_T 5 (float_lit 9 1) 1%num 0
           chain_start).
  reflexivity.
Defined.


Lemma policy_iteration_stops_when_stable_witness :
  ∃ n g1 g2 g3, n < 5 ∧
    passes (iteration_pass chain chain_T 5 (float_lit 9 1) 1%num)
      0 chain_start n g1 ∧
    policy_evaluation chain chain_T 5 (float_lit 9 1) 1%num 0
      (announced n g1) = (g2, Return tt) ∧
    policy_improvement chain chain_T (float_lit 9 1) g2
    = (g3, Return false) ∧
    (policy_iteration chain chain_T 5 (float_lit 9 1) 1%num chain_start).1
    = finished n g3.
Proof.
  apply (proj1 (proj1 (policy_iteration_stops_when_stable chain chain_T
           (float_lit 9 1) 1%num) 5 chain_start _)).
  reflexivity.
Defined.

(** On the chain the two actions of the absorbing state tie; the first
    one is selected. *)
Example chain_tie_break :
  (best_action chain chain_T (float_lit 9 1) 0 1 (chain_at 2 [])).2
  = Return 0%Z.
Proof. reflexivity. Qed.
End Witnesses.

(** * Further facts: the learner under the loop driver *)

Section LearnerCallFacts.
Context `{F : PyFloat}.
Implicit Types (self : TabularQLearning) (t : tape) (tr : Transition)
  (c : call) (cs : list call).

(** The store after [plan], whatever its outcome: the learner is as before
    and the generator has handed out one sample per action. *)
Lemma plan_store self t s train_mode debug_mode :
  (plan s train_mode debug_mode (self, t)).1
  = (self, λ k, t ((shape (Q self)).2 + k)).
Proof.
  unfold plan, randn. py_unfold. simpl.
  destruct (truediv _ _); simpl; [|done].
  destruct (getitem _ _); done.
Qed.

Lemma on_episode_end_Return self episode train_mode prev :
  list.last (running_avg self) = Some prev →
  on_episode_end episode train_mode self
  = (set_running_avg (λ l,
       l ++ [fadd (fmul (float_lit 1 2) (_return self))
                  (fmul (float_lit 99 2) prev)]) self, Return tt).
Proof. intros Hlast. unfold on_episode_end. py_unfold. simpl. by rewrite Hlast. Qed.

Lemma on_episode_end_empty self episode train_mode :
  running_avg self = [] →
  on_episode_end episode train_mode self = (self, Raise IndexError).
Proof. intros Hnil. unfold on_episode_end. py_unfold. simpl. by rewrite Hnil. Qed.

Lemma last_is_Some {A} (l : list A) : l ≠ [] → ∃ x, list.last l = Some x.
Proof.
  intros Hl. destruct (list.last l) as [x|] eqn:E; [eauto|].
  by apply last_None in E.
Qed.

(** What one call leaves of the learner. *)
Lemma after_learner c self t :
  let self' := (after c (self, t)).1 in
  Q self' = Q self ∨
  (∃ tr v, setitem2 (Q self) (state tr, action tr) v = Return (Q self')).
Proof.
  destruct c as [s tm dm|ep tm|k tr info|ep tm]; simpl.
  - rewrite plan_store. by left.
  - by left.
  - destruct (on_step_taken_cases self k tr info) as [[self' E]|E].
    + rewrite E. simpl.
      apply on_step_taken_Return in E
        as (x & LR & tgt & q & Q' & _ & _ & _ & Hq & HQ & ->).
      right. eauto.
    + rewrite E. by left.
  - destruct (running_avg self) as [|a l] eqn:Hl.
    + rewrite on_episode_end_empty by done. by left.
    + destruct (last_is_Some (a :: l)) as [prev Hprev]; [done|].
      rewrite <-Hl in Hprev. rewrite (on_episode_end_Return _ _ _ prev) by done.
      by left.
Qed.

Lemma after_parameters c self t :
  let self' := (after c (self, t)).1 in
  _lr self' = _lr self ∧ _decay self' = _decay self ∧
  _gamma self' = _gamma self.
Proof.
  destruct c as [s tm dm|ep tm|k tr info|ep tm]; simpl.
  - by rewrite plan_store.
  - done.
  - destruct (on_step_taken_cases self k tr info) as [[self' E]|E].
    + rewrite E. simpl.
      by apply on_step_taken_Return in E
        as (x & LR & tgt & q & Q' & _ & _ & _ & Hq & HQ & ->).
    + by rewrite E.
  - destruct (running_avg self) as [|a l] eqn:Hl.
    + by rewrite on_episode_end_empty.
    + destruct (last_is_Some (a :: l)) as [prev Hprev]; [done|].
      rewrite <-Hl in Hprev. by rewrite (on_episode_end_Return _ _ _ prev).
Qed.

Lemma after_shape c self t :
  let self' := (after c (self, t)).1 in
  shape (Q self') = shape (Q self) ∧
  (well_shaped (Q self) → well_shaped (Q self')).
Proof.
  pose proof (after_learner c self t) as Hc. simpl in *.
  destruct Hc as [->|(tr & v & HQ)]; [done|].
  split.
  - by apply setitem2_Return in HQ as (row & y & _ & _ & ->).
  - intros Hwf. by eapply well_shaped_setitem2.
Qed.

Lemma after_all_snoc cs c (st : TabularQLearning * tape) :
  after_all (cs ++ [c]) st = after c (after_all cs st).
Proof. unfold after_all. by rewrite foldl_app. Qed.

(** X1. Whatever calls the loop driver makes on the learner ([plan],
    [on_episode_start], [on_step_taken], [on_episode_end]), in whatever
    order and however each of them ends, the Q-table keeps its shape and
    stays well shaped, and the learning rate, the decay horizon and the
    discount are never changed. *)
Theorem learner_table_shape_kept cs self t :
  let self' := (after_all cs (self, t)).1 in
  shape (Q self') = shape (Q self) ∧
  (well_shaped (Q self) → well_shaped (Q self')) ∧
  _lr self' = _lr self ∧ _decay self' = _decay self ∧
  _gamma self' = _gamma self.
Proof.
  induction cs as [|c cs IH] using rev_ind; [done|].
  rewrite after_all_snoc. destruct (after_all cs (self, t)) as [self1 t1].
  simpl in *. destruct IH as (Hshape & Hwf & Hlr & Hdecay & Hgamma).
  destruct (after_shape c self1 t1) as [Hshape' Hwf'].
  destruct (after_parameters c self1 t1) as (Hlr' & Hdecay' & Hgamma').
  simpl in *. split; [congruence|]. split; [auto|]. split; [congruence|].
  split; congruence.
Qed.

Lemma after_counter c self t :
  (_episode_count self ≤ _episode_count (after c (self, t)).1)%Z.
Proof.
  destruct c as [s tm dm|ep tm|k tr info|ep tm]; simpl.
  - by rewrite plan_store.
  - done.
  - destruct (on_step_taken_cases self k tr info) as [[self' E]|E].
    + rewrite E. simpl.
      apply on_step_taken_Return in E
        as (x & LR & tgt & q & Q' & _ & _ & _ & Hq & HQ & ->).
      simpl. destruct (is_terminal tr); lia.
    + by rewrite E.
  - destruct (running_avg self) as [|a l] eqn:Hl.
    + by rewrite on_episode_end_empty.
    + destruct (last_is_Some (a :: l)) as [prev Hprev]; [done|].
      rewrite <-Hl in Hprev. by rewrite (on_episode_end_Return _ _ _ prev).
Qed.

Lemma after_all_counter cs self t :
  (_episode_count self ≤ _episode_count (after_all cs (self, t)).1)%Z.
Proof.
  induction cs as [|c cs IH] using rev_ind; [done|].
  rewrite after_all_snoc. destruct (after_all cs (self, t)) as [self1 t1].
  pose proof (after_counter c self1 t1). simpl in *. lia.
Qed.

Lemma after_all_shape cs self t :
  shape (Q (after_all cs (self, t)).1) = shape (Q self) ∧
  (well_shaped (Q self) → well_shaped (Q (after_all cs (self, t)).1)).
Proof.
  induction cs as [|c cs IH] using rev_ind; [done|].
  rewrite after_all_snoc. destruct (after_all cs (self, t)) as [self1 t1].
  destruct (after_shape c self1 t1) as [Hshape Hwf]. simpl in *.
  destruct IH as [IH1 IH2]. split; [congruence|auto].
Qed.

(** [plan] on a state of a well-shaped table returns one score per action
    as soon as [1. / self._episode_count] is defined. *)
Lemma plan_Return self t s train_mode debug_mode scale :
  well_shaped (Q self) →
  s < (shape (Q self)).1 →
  truediv (of_int 1) (of_int (_episode_count self)) = Some scale →
  ∃ scores, (plan s train_mode debug_mode (self, t)).2 = Return scores ∧
    length scores = (shape (Q self)).2.
Proof.
  intros [Hrows Hcols] Hs Hscale.
  destruct (lookup_lt_is_Some_2 (data (Q self)) s) as [row Hrow]; [lia|].
  assert (length row = (shape (Q self)).2) as Hlen
    by apply (Forall_lookup_1 _ _ _ _ Hcols Hrow).
  unfold plan, randn, getitem. py_unfold. simpl.
  rewrite Hscale, Hrow. simpl. eexists. split; [done|].
  rewrite length_zip_with, !length_map, length_seq. lia.
Qed.

(** X2. On a learner built by [__init__], after any sequence of calls,
    [plan] on a state below [nstates] returns one score per action: the
    episode counter never falls below [1], so [1. / self._episode_count]
    never divides by zero (the quotient of [1] by a non-zero integer being
    defined). *)
Theorem plan_returns_on_built_learner
    (Hdiv : ∀ z, z ≠ 0%Z → is_Some (truediv (of_int 1) (of_int z)))
    nstates nactions learning_rate decay_steps discount_factor cs t
    (s : nat) (train_mode debug_mode : bool) :
  s < nstates →
  ∃ scores,
    (plan s train_mode debug_mode
       (after_all cs
          (__init__ nstates nactions learning_rate decay_steps
             discount_factor, t))).2 = Return scores ∧
    length scores = nactions.
Proof.
  intros Hs.
  set (self0 := __init__ nstates nactions learning_rate decay_steps
                  discount_factor).
  pose proof (after_all_counter cs self0 t) as Hcount.
  destruct (after_all_shape cs self0 t) as [Hshape Hwf].
  destruct (after_all cs (self0, t)) as [self1 t1]. simpl in *.
  destruct (Hdiv (_episode_count self1)) as [scale Hscale]; [lia|].
  destruct (plan_Return self1 t1 s train_mode debug_mode scale)
    as (scores & Hp & Hlen).
  - apply Hwf, well_shaped_zeros.
  - by rewrite Hshape.
  - done.
  - exists scores. by rewrite Hlen, Hshape.
Qed.

Lemma after_running_avg c self t :
  running_avg self ≠ [] →
  ∃ news, running_avg (after c (self, t)).1 = running_avg self ++ news ∧
    length news = length (List.filter is_episode_end [c]).
Proof.
  intros Hne. destruct c as [s tm dm|ep tm|k tr info|ep tm]; simpl.
  - rewrite plan_store. exists []. by rewrite app_nil_r.
  - exists []. by rewrite app_nil_r.
  - exists []. rewrite app_nil_r. split; [|done].
    destruct (on_step_taken_cases self k tr info) as [[self' E]|E].
    + rewrite E. simpl.
      by apply on_step_taken_Return in E
        as (x & LR & tgt & q & Q' & _ & _ & _ & Hq & HQ & ->).
    + by rewrite E.
  - destruct (last_is_Some _ Hne) as [prev Hprev].
    rewrite (on_episode_end_Return _ _ _ prev) by done. simpl. eauto.
Qed.

(** X3. [running_avg] is append-only: along any sequence of calls on a
    learner whose list is not empty the list only grows at its end, by one
    entry per [on_episode_end] call and by nothing else; hence
    [on_episode_end] never raises there and [metrics] always has a last
    entry to report. *)
Theorem running_avg_history cs self t :
  running_avg self ≠ [] →
  let self' := (after_all cs (self, t)).1 in
  (∃ news, running_avg self' = running_avg self ++ news ∧
     length news = length (List.filter is_episode_end cs)) ∧
  (∀ episode train_mode,
     (on_episode_end episode train_mode self').2 = Return tt) ∧
  (∃ m, metrics self' = (self', Return m)).
Proof.
  intros Hne.
  assert (∃ news, running_avg (after_all cs (self, t)).1
                  = running_avg self ++ news ∧
            length news = length (List.filter is_episode_end cs))
    as (news & Hnews & Hlen).
  { induction cs as [|c cs IH] using rev_ind.
    - exists []. by rewrite app_nil_r.
    - rewrite after_all_snoc. destruct IH as (news & Hnews & Hlen).
      destruct (after_all cs (self, t)) as [self1 t1]. simpl in *.
      destruct (after_running_avg c self1 t1) as (new & Hnew & Hlen').
      { rewrite Hnews. by destruct (running_avg self). }
      exists (news ++ new). rewrite Hnew, Hnews, <-app_assoc.
      split; [done|]. rewrite List.filter_app, !length_app. lia. }
  simpl. split; [eauto|].
  assert (running_avg (after_all cs (self, t)).1 ≠ []) as Hne'.
  { rewrite Hnews. by destruct (running_avg self). }
  destruct (last_is_Some _ Hne') as [prev Hprev]. split.
  - intros episode train_mode.
    by rewrite (on_episode_end_Return _ _ _ prev).
  - exists prev. unfold metrics. py_unfold. simpl. by rewrite Hprev.
Qed.

(** X4. [on_episode_end] followed by [metrics]: where [metrics] reported
    [prev], [on_episode_end] returns, appends one entry and leaves the
    return as it is, and [metrics] then reports
    [0.01 * self._return + 0.99 * prev]. *)
Theorem metrics_after_episode_end self episode train_mode prev :
  metrics self = (self, Return prev) →
  ∃ self',
    on_episode_end episode train_mode self = (self', Return tt) ∧
    metrics self'
    = (self', Return (fadd (fmul (float_lit 1 2) (_return self))
                           (fmul (float_lit 99 2) prev))) ∧
    length (running_avg self') = S (length (running_avg self)) ∧
    _return self' = _return self.
Proof.
  unfold metrics at 1. py_unfold. simpl.
  destruct (list.last (running_avg self)) as [p|] eqn:Hlast; [|done].
  intros [= ->]. eexists. split; [by apply on_episode_end_Return|].
  simpl. split; [|split; [|done]].
  - unfold metrics. py_unfold. simpl. by rewrite last_snoc.
  - rewrite length_app. simpl. lia.
Qed.

(** X5. Only [plan] draws from the random generator, and each call of it
    draws one sample per action, also when it raises: after any sequence
    of calls the generator stands [nactions] samples further for every
    [plan] among them. *)
Theorem generator_position cs self t k :
  (after_all cs (self, t)).2 k
  = t (length (List.filter
                 (λ c, match c with call_plan _ _ _ => true | _ => false end)
                 cs) * (shape (Q self)).2 + k).
Proof.
  revert k. induction cs as [|c cs IH] using rev_ind; intros k; [done|].
  rewrite after_all_snoc, List.filter_app, length_app.
  destruct (after_all_shape cs self t) as [Hshape _].
  destruct (after_all cs (self, t)) as [self1 t1]. simpl in *.
  destruct c as [s tm dm|ep tm|j tr info|ep tm]; simpl;
    rewrite ?plan_store; simpl; rewrite IH; f_equal; rewrite ?Hshape; lia.
Qed.
End LearnerCallFacts.

Section StepFacts.
Context `{F : PyFloat}.
Implicit Types (self : TabularQLearning) (tr : Transition).

(** [on_step_taken] has no loop: it returns or raises. *)
Lemma on_step_taken_ends self step tr info :
  (on_step_taken step tr info self).2 ≠ OutOfFuel.
Proof.
  unfold on_step_taken, getitem, getitem2, setitem2, np.max. py_unfold. simpl.
  repeat case_match; simplify_eq/=; done.
Qed.

(** X6. [on_step_taken] on a transition whose [(state, action)] is
    outside the Q-table raises, and the object is left half updated: the
    reward has been added to the return, while the table and the episode
    counter are as before.  The exception is [IndexError] whenever the
    learning rate and the target could be computed. *)
Theorem on_step_taken_outside_table self step tr info :
  getitem2 (Q self) (state tr, action tr) = Raise IndexError →
  (∃ e, on_step_taken step tr info self
        = (set_return (λ r, fadd r (reward tr)) self, Raise e)) ∧
  (∀ x LR tgt,
     truediv (of_int (_episode_count self)) (_decay self) = Some x →
     fpow (_lr self) x = Some LR →
     has_target self tr tgt →
     (on_step_taken step tr info self).2 = Raise IndexError).
Proof.
  intros Hq. split.
  - destruct (on_step_taken step tr info self) as [self' o] eqn:E.
    destruct o as [[]|e|].
    + apply on_step_taken_Return in E
        as (x & LR & tgt & q & Q' & _ & _ & _ & Hq' & _). congruence.
    + exists e. f_equal. change self' with (self', @Raise unit e).1.
      rewrite <-E. apply on_step_taken_not_Return. by rewrite E.
    + by destruct (on_step_taken_ends self step tr info); rewrite E.
  - intros x LR tgt Hx HLR Htgt. unfold on_step_taken, has_target in *.
    py_unfold. simpl. rewrite Hx. simpl. rewrite HLR. simpl.
    destruct (is_terminal tr); simpl.
    + by rewrite Hq.
    + destruct Htgt as (row & m & -> & Hm & _). simpl. rewrite Hm. simpl.
      by rewrite Hq.
Qed.

Lemma observe_all_cons tr trs self :
  observe_all (tr :: trs) self
  = match on_step_taken 0 tr tt self with
    | (self1, Return _) => observe_all trs self1
    | (self1, Raise e) => (self1, Raise e)
    | (self1, OutOfFuel) => (self1, OutOfFuel)
    end.
Proof. unfold observe_all. simpl. py_unfold. done. Qed.

(** X7. A run of [on_step_taken] over the transitions of some steps, all
    returning, adds their rewards to the return in order, counts one
    episode per terminal transition among them, and leaves [running_avg]
    and the shape of the table alone. *)
Theorem observe_all_accumulates trs self self' :
  observe_all trs self = (self', Return tt) →
  _return self' = foldl fadd (_return self) (map reward trs) ∧
  _episode_count self'
  = (_episode_count self
     + Z.of_nat (length (List.filter is_terminal trs)))%Z ∧
  running_avg self' = running_avg self ∧
  shape (Q self') = shape (Q self).
Proof.
  revert self. induction trs as [|tr trs IH]; intros self.
  - intros [= <-]. simpl. repeat split. lia.
  - rewrite observe_all_cons.
    destruct (on_step_taken 0 tr tt self) as [self1 [[]| |]] eqn:E; [|done..].
    intros (Hret & Hcount & Havg & Hshape)%IH.
    apply on_step_taken_Return in E
      as (x & LR & tgt & q & Q' & _ & _ & _ & _ & HQ & ->).
    apply setitem2_Return in HQ as (row & y & _ & _ & ->).
    simpl in *. rewrite Hret, Hcount, Havg, Hshape.
    repeat split. destruct (is_terminal tr); simpl; lia.
Qed.
Lemma observe_all_return trs self self' :
  observe_all trs self = (self', Return tt) →
  _return self' = foldl fadd (_return self) (map reward trs) ∧
  running_avg self' = running_avg self.
Proof.
  revert self. induction trs as [|tr trs IH]; intros self.
  - by intros [= <-].
  - rewrite observe_all_cons.
    destruct (on_step_taken 0 tr tt self) as [self1 [[]| |]] eqn:E; [|done..].
    intros (Hret & Havg)%IH.
    apply on_step_taken_Return in E
      as (x & LR & tgt & q & Q' & _ & _ & _ & _ & _ & ->).
    simpl in *. by rewrite Hret, Havg.
Qed.

(** X8. An episode as the loop driver runs it: [on_episode_start], the
    steps, [on_episode_end].  The entry appended to [running_avg], which
    [metrics] reports afterwards, is [0.01 * G + 0.99 * prev] with [G] the
    sum of the episode's rewards taken from [0]: what the return held
    before the episode does not enter. *)
Theorem episode_average_recorded self episode train_mode trs self1 prev :
  metrics self = (self, Return prev) →
  observe_all trs (on_episode_start episode train_mode self).1
  = (self1, Return tt) →
  ∃ self2,
    on_episode_end episode train_mode self1 = (self2, Return tt) ∧
    metrics self2
    = (self2,
       Return (fadd (fmul (float_lit 1 2)
                       (foldl fadd (of_int 0) (map reward trs)))
                    (fmul (float_lit 99 2) prev))).
Proof.
  unfold metrics at 1. py_unfold. simpl.
  destruct (list.last (running_avg self)) as [p|] eqn:Hlast; [|done].
  intros [= ->] (Hret & Havg)%observe_all_return. simpl in *.
  rewrite <-Havg in Hlast.
  eexists. split; [by apply on_episode_end_Return|].
  unfold metrics. py_unfold. simpl. by rewrite last_snoc, Hret.
Qed.
End StepFacts.

Section BoundFacts.
Context `{F : PyFloat} {E : ExactArith F}.
Implicit Types (self : TabularQLearning) (tr : Transition) (x y z : num).

Add Ring num_ring_bounds : exact_ring.
Local Open Scope num_scope.

Lemma fle_add_nonneg x y : 0 ≤ x → 0 ≤ y → 0 ≤ x + y.
Proof.
  pose proof exact_order as HO. intros Hx Hy.
  apply (fle_trans _ y); [done|]. apply (proj2 (fle_sub_nonneg _ _)).
  by replace (x + y - y) with x by ring.
Qed.

(** The TD target stays in [[0, B]] when the reward is in [[0, R]], the
    entries of the table are in [[0, B]] and [R + γ B ≤ B]. *)
Lemma has_target_within self tr tgt R B :
  entries_within 0 B (Q self) →
  0 ≤ reward tr → reward tr ≤ R →
  0 ≤ _gamma self → R + _gamma self * B ≤ B → 0 ≤ B →
  has_target self tr tgt →
  0 ≤ tgt ∧ tgt ≤ B.
Proof.
  pose proof exact_order as HO.
  intros HQ Hr0 HrR Hγ HB HB0 Htgt.
  assert (R ≤ B) as HRB.
  { apply (fle_trans _ (R + _gamma self * B)); [|done].
    apply (proj2 (fle_sub_nonneg _ _)).
    replace (R + _gamma self * B - R) with (_gamma self * B) by ring.
    by apply fle_mul_nonneg. }
  unfold has_target in Htgt. destruct (is_terminal tr).
  - subst. split; [done|]. by apply (fle_trans _ R).
  - destruct Htgt as (row & m & Hrow & Hm & ->).
    apply np_max_greatest in Hm as [Hin _].
    apply list_elem_of_lookup in Hin as [j Hj].
    unfold getitem in Hrow.
    destruct (data (Q self) !! next_state tr) as [row'|] eqn:Hrow'; [|done].
    simpl in Hrow. injection Hrow as ->.
    destruct (HQ (next_state tr, j) m) as [Hm0 HmB].
    { unfold getitem2. simpl. by rewrite Hrow', Hj. }
    split.
    + apply fle_add_nonneg; [done|]. by apply fle_mul_nonneg.
    + apply (fle_trans _ (R + _gamma self * B)); [|done].
      apply (proj2 (fle_sub_nonneg _ _)).
      replace (R + _gamma self * B - (reward tr + _gamma self * m))
        with ((R - reward tr) + _gamma self * (B - m)) by ring.
      apply fle_add_nonneg; [by apply (proj1 (fle_sub_nonneg _ _))|].
      apply fle_mul_nonneg; [done|]. by apply (proj1 (fle_sub_nonneg _ _)).
Qed.

(** X9. Bounded rewards keep the table bounded.  With rewards in
    [[0, R]], a discount [γ >= 0] and a bound [B >= 0] such that
    [R + γ B <= B], a table with all entries in [[0, B]] still has all
    entries in [[0, B]] after [on_step_taken], however the call ends,
    provided the learning rate it computes lies in [[0, 1]]. *)
Theorem on_step_taken_keeps_bounds self step tr info R B :
  entries_within 0 B (Q self) →
  0 ≤ reward tr → reward tr ≤ R →
  0 ≤ _gamma self → R + _gamma self * B ≤ B → 0 ≤ B →
  (∀ x α,
     truediv (of_int (_episode_count self)) (_decay self) = Some x →
     fpow (_lr self) x = Some α → 0 ≤ α ∧ α ≤ 1) →
  entries_within 0 B (Q (on_step_taken step tr info self).1).
Proof.
  pose proof exact_order as HO.
  intros HQ Hr0 HrR Hγ HB HB0 Hα.
  destruct (on_step_taken_cases self step tr info) as [[self' Hrun]|Hrun];
    [|by rewrite Hrun].
  rewrite Hrun. simpl.
  apply on_step_taken_Return in Hrun
    as (x & α & tgt & q & Q' & Hx & HLR & Htgt & Hq & HQ' & ->).
  simpl. intros ij v Hv.
  destruct (decide (ij = (state tr, action tr))) as [->|Hne].
  - rewrite (getitem2_setitem2_eq _ _ _ _ HQ') in Hv. injection Hv as <-.
    destruct (Hα x α Hx HLR) as [Hα0 Hα1].
    destruct (HQ _ _ Hq) as [Hq0 HqB].
    destruct (has_target_within self tr tgt R B) as [Ht0 HtB]; [done..|].
    destruct (td_step_between q α tgt Hα0 Hα1) as [[H1 H2]|[H1 H2]].
    + split; [by apply (fle_trans _ q)|by apply (fle_trans _ tgt)].
    + split; [by apply (fle_trans _ tgt)|by apply (fle_trans _ q)].
  - rewrite (getitem2_setitem2_ne _ _ _ _ _ HQ' Hne) in Hv. by apply (HQ ij).
Qed.
End BoundFacts.

Section GreedyTableFacts.
Context `{F : PyFloat}.

Lemma argmax_rows_Return rows ks :
  argmax_rows rows = Return ks →
  length ks = length rows ∧
  ∀ i row, rows !! i = Some row →
    ∃ k, ks !! i = Some k ∧ np.argmax row = Return k.
Proof.
  revert ks. induction rows as [|row rows IH]; intros ks; simpl.
  - intros [= <-]. split; [done|]. by intros i row ?.
  - destruct (np.argmax row) as [k| |] eqn:Hk; [|done..].
    destruct (argmax_rows rows) as [ks'| |] eqn:Hks; [|done..].
    intros [= <-]. destruct (IH ks' eq_refl) as [Hlen Hall].
    split; [simpl; lia|].
    intros [|i] row' Hrow'; simpl in *.
    + injection Hrow' as <-. eauto.
    + by apply Hall.
Qed.

Lemma argmax_rows_nonempty rows :
  Forall (λ row, row ≠ []) rows → ∃ ks, argmax_rows rows = Return ks.
Proof.
  induction 1 as [|row rows Hrow _ [ks IH]]; simpl; [eauto|].
  destruct row; [done|]. simpl. rewrite IH. eauto.
Qed.

Lemma reshape_lookup {A} (v : list A) r c a i j :
  reshape v (r, c) = Return a → i < r → j < c →
  getitem2 a (i, j) = or_raise IndexError (v !! (i * c + j)).
Proof.
  unfold reshape. simpl. case_match eqn:Hlen; [|done]. intros [= <-] Hi Hj.
  unfold getitem2. simpl.
  rewrite list_lookup_fmap, lookup_seq_lt by done. simpl.
  rewrite lookup_take_lt by done. by rewrite lookup_drop.
Qed.

(** X10. The last cell, [np.argmax(mind.Q, axis=1).reshape(4,4)], on a
    table of 16 states and at least one action: the cell returns a 4 by 4
    array whose entry [(i, j)] is the action of the first greatest entry
    of the row of state [4 i + j]. *)
Theorem greedy_table_first_maxima {O : FloatOrder F}
    (mind : TabularQLearning) (nactions : nat) :
  well_shaped (Q mind) →
  shape (Q mind) = (16, nactions) →
  0 < nactions →
  ∃ a, greedy_table mind = Return a ∧ shape a = (4, 4) ∧
    ∀ i j, i < 4 → j < 4 →
      ∃ k row qk,
        getitem2 a (i, j) = Return k ∧
        getitem (Q mind) (i * 4 + j) = Return row ∧
        row !! k = Some qk ∧
        (∀ j' q, row !! j' = Some q → fle q qk) ∧
        (∀ j' q, j' < k → row !! j' = Some q → flt q qk = true).
Proof.
  intros [Hrows Hcols] Hshape Hn. rewrite Hshape in *. simpl in *.
  destruct (argmax_rows_nonempty (data (Q mind))) as [ks Hks].
  { eapply Forall_impl; [|exact Hcols]. simpl. intros row Hlen ->.
    simpl in Hlen. lia. }
  destruct (argmax_rows_Return _ _ Hks) as [Hlen Hall].
  unfold greedy_table, argmax_axis1. rewrite Hshape. simpl.
  destruct nactions as [|n]; [lia|]. simpl. rewrite Hks.
  assert (reshape ks (4, 4)
          = Return (mk_ndarray (4, 4)
              (map (λ i, take 4 (drop (i * 4) ks)) (seq 0 4)))) as Hre.
  { unfold reshape. simpl. by rewrite Hlen, Hrows. }
  eexists. split; [exact Hre|]. split; [done|].
  intros i j Hi Hj.
  rewrite (reshape_lookup ks 4 4 _ i j Hre Hi Hj).
  destruct (lookup_lt_is_Some_2 (data (Q mind)) (i * 4 + j)) as [row Hrow];
    [lia|].
  destruct (Hall _ _ Hrow) as (k & Hk & Harg).
  destruct (np_argmax_first _ _ Harg) as (qk & Hqk & Hmax & Hfirst).
  exists k, row, qk. rewrite Hk. unfold getitem. rewrite Hrow. done.
Qed.

(** X11. The last cell raises [ValueError] on a table that has no action
    column ([np.argmax] of empty rows) or whose number of states is not 16
    ([reshape(4,4)] of another size). *)
Theorem greedy_table_wrong_size (mind : TabularQLearning) :
  well_shaped (Q mind) →
  ((shape (Q mind)).2 = 0 ∨ (shape (Q mind)).1 ≠ 16) →
  greedy_table mind = Raise ValueError.
Proof.
  intros [Hrows Hcols] Hsize. unfold greedy_table, argmax_axis1.
  destruct ((shape (Q mind)).2 =? 0) eqn:Hn; [done|].
  apply Nat.eqb_neq in Hn. destruct Hsize as [?|Hsize]; [done|].
  destruct (argmax_rows_nonempty (data (Q mind))) as [ks Hks].
  { eapply Forall_impl; [|exact Hcols]. simpl. intros row Hlen ->.
    simpl in Hlen. lia. }
  rewrite Hks. destruct (argmax_rows_Return _ _ Hks) as [Hlen _].
  unfold reshape. simpl. rewrite Hlen, Hrows.
  by destruct (Nat.eqb_spec (shape (Q mind)).1 16).
Qed.
End GreedyTableFacts.

(** * Further facts: the dynamic-programming cells *)

Section KeptFacts.
Context {St : Type} (R : St → St → Prop).
Hypothesis R_refl : ∀ s, R s s.
Hypothesis R_trans : ∀ s1 s2 s3, R s1 s2 → R s2 s3 → R s1 s3.

(** A relation between the store before and after that every step keeps
    is kept by sequences and loops, whatever their outcome. *)
Lemma bind_kept {A B} (m : Py St A) (k : A → Py St B) s :
  R s (m s).1 → (∀ a s', R s' (k a s').1) → R s ((m ≫= k) s).1.
Proof.
  intros Hm Hk. unfold mbind, Py_bind.
  destruct (m s) as [s1 [a| |]]; simpl in *; [|done..].
  eapply R_trans; [exact Hm|apply Hk].
Qed.

Lemma for_kept {A} (xs : list A) (body : A → Py St unit) s :
  (∀ x s', R s' (body x s').1) → R s (for_ xs body s).1.
Proof.
  intros Hbody. revert s. induction xs as [|x xs IH]; intros s; simpl.
  - apply R_refl.
  - apply bind_kept; [apply Hbody|]. intros _ s'. apply IH.
Qed.

Lemma for_acc_kept {A B} (xs : list A) (acc : B) (body : A → B → Py St B) s :
  (∀ x c s', R s' (body x c s').1) → R s (for_acc xs acc body s).1.
Proof.
  intros Hbody. revert acc s. induction xs as [|x xs IH]; intros acc s; simpl.
  - apply R_refl.
  - apply bind_kept; [apply Hbody|]. intros c s'. apply IH.
Qed.

Lemma while_true_kept fuel (body : nat → Py St bool) i s :
  (∀ i s', R s' (body i s').1) → R s (while_true fuel body i s).1.
Proof.
  intros Hbody. revert i s. induction fuel as [|fuel IH]; intros i s.
  - apply R_refl.
  - rewrite while_true_unfold. specialize (Hbody i s).
    destruct (body i s) as [s1 [[]| |]]; simpl in *; try done.
    eapply R_trans; [exact Hbody|apply IH].
Qed.
End KeptFacts.

Section SweepFacts.
Context `{F : PyFloat}.
Variable mdp : MDP.
Variable T : nat → nat → Z → nat → nat → num * num.
Implicit Types (g : Globals) (gamma theta : num) (s : nat * nat).

Lemma evaluation_keeps_refl g : evaluation_keeps g g.
Proof. split; [done|]. split; [done|]. split; [done|reflexivity]. Qed.

Lemma evaluation_keeps_trans g1 g2 g3 :
  evaluation_keeps g1 g2 → evaluation_keeps g2 g3 → evaluation_keeps g1 g3.
Proof.
  intros (Hpi & Hshape & Hwf & Hout) (Hpi' & Hshape' & Hwf' & Hout').
  split; [congruence|]. split; [congruence|]. split; [auto|].
  by etrans.
Qed.

Lemma improvement_keeps_refl g : improvement_keeps g g.
Proof. split; [done|]. split; [done|]. split; done. Qed.

Lemma improvement_keeps_trans g1 g2 g3 :
  improvement_keeps g1 g2 → improvement_keeps g2 g3 →
  improvement_keeps g1 g3.
Proof.
  intros (HV & Hout & Hshape & Hwf) (HV' & Hout' & Hshape' & Hwf').
  split; [congruence|]. split; [congruence|]. split; [congruence|auto].
Qed.

Lemma evaluate_state_keeps gamma s g :
  evaluation_keeps g (evaluate_state mdp T gamma s g).1.
Proof.
  unfold evaluate_state. py_unfold. simpl.
  destruct (getitem2 (pi g) s) as [a| |]; simpl; [|apply evaluation_keeps_refl..].
  destruct (q_value_read_only mdp T s.1 s.2 a gamma g) as [Hg _].
  destruct (q_value mdp T s.1 s.2 a gamma g) as [g1 [q| |]]; simpl in *;
    subst; [|apply evaluation_keeps_refl..].
  destruct (setitem2 (V g) s q) as [v'| |] eqn:Hset; simpl;
    [|apply evaluation_keeps_refl..].
  split; [done|]. simpl. split.
  - by apply setitem2_Return in Hset as (row & y & _ & _ & ->).
  - split; [|done]. intros Hwf. by eapply well_shaped_setitem2.
Qed.

Lemma sweep_keeps gamma g : evaluation_keeps g (sweep mdp T gamma g).1.
Proof.
  unfold sweep. apply for_kept.
  - apply evaluation_keeps_refl.
  - apply evaluation_keeps_trans.
  - intros s g'. apply evaluate_state_keeps.
Qed.

Lemma emit_keeps e g : evaluation_keeps g (emit e g).1.
Proof.
  split; [done|]. split; [done|]. split; [done|]. by apply prefix_app_r.
Qed.

Lemma show_progress_keeps visualize_each i g :
  evaluation_keeps g (show_progress visualize_each i g).1.
Proof.
  unfold show_progress. case_match.
  - repeat (apply (bind_kept evaluation_keeps evaluation_keeps_trans);
            [|intros ??]); try apply emit_keeps; apply evaluation_keeps_refl.
  - apply evaluation_keeps_refl.
Qed.

Lemma evaluation_pass_keeps gamma theta visualize_each i g :
  evaluation_keeps g (evaluation_pass mdp T gamma theta visualize_each i g).1.
Proof.
  unfold evaluation_pass.
  apply (bind_kept evaluation_keeps evaluation_keeps_trans);
    [apply show_progress_keeps|intros _ g1].
  apply (bind_kept evaluation_keeps evaluation_keeps_trans);
    [apply evaluation_keeps_refl|intros V_old g2].
  apply (bind_kept evaluation_keeps evaluation_keeps_trans);
    [apply sweep_keeps|intros _ g3].
  apply (bind_kept evaluation_keeps evaluation_keeps_trans);
    [apply evaluation_keeps_refl|intros v g4].
  apply (bind_kept evaluation_keeps evaluation_keeps_trans);
    [apply evaluation_keeps_refl|intros d g5].
  destruct (flt d theta); [|apply evaluation_keeps_refl].
  apply (bind_kept evaluation_keeps evaluation_keeps_trans);
    [apply emit_keeps|intros _ g6]. apply evaluation_keeps_refl.
Qed.

Lemma evaluation_run_keeps fuel gamma theta visualize_each g :
  evaluation_keeps g
    (policy_evaluation mdp T fuel gamma theta visualize_each g).1.
Proof.
  unfold policy_evaluation. apply (while_true_kept evaluation_keeps).
  - apply evaluation_keeps_refl.
  - apply evaluation_keeps_trans.
  - intros i g'. apply evaluation_pass_keeps.
Qed.

Lemma evaluation_run_keeps_pi fuel gamma theta visualize_each g :
  pi (policy_evaluation mdp T fuel gamma theta visualize_each g).1 = pi g.
Proof. apply evaluation_run_keeps. Qed.

(** X12. [policy_evaluation], its exercise line completed as modelled,
    never writes the policy: however the call ends (returning, raising, or
    still running when the fuel is spent) the global [pi] is as before,
    the value table has kept its shape and stays well shaped, and the
    lines printed before the call are still the head of the output. *)
Theorem policy_evaluation_keeps_policy fuel gamma theta visualize_each g :
  let g' := (policy_evaluation mdp T fuel gamma theta visualize_each g).1 in
  pi g' = pi g ∧ shape (V g') = shape (V g) ∧
  (well_shaped (V g) → well_shaped (V g')) ∧
  stdout g `prefix_of` stdout g'.
Proof. apply evaluation_run_keeps. Qed.

Lemma improve_state_keeps gamma s changed g :
  improvement_keeps g (improve_state mdp T gamma s changed g).1.
Proof.
  unfold improve_state. py_unfold.
  destruct (best_action_read_only mdp T gamma s.1 s.2 g) as [Hg _].
  destruct (best_action _ _ _ _ _ g) as [g1 [best_a| |]]; simpl in *;
    subst; [|apply improvement_keeps_refl..].
  destruct (getitem2 (pi g) s) as [a| |]; simpl; [|apply improvement_keeps_refl..].
  case_bool_decide; simpl; [|apply improvement_keeps_refl].
  destruct (setitem2 (pi g) s best_a) as [p'| |] eqn:Hset; simpl;
    [|apply improvement_keeps_refl..].
  split; [done|]. split; [done|]. simpl. split.
  - by apply setitem2_Return in Hset as (row & y & _ & _ & ->).
  - intros Hwf. by eapply well_shaped_setitem2.
Qed.

(** X13. [policy_improvement], its exercise lines completed as modelled,
    never writes the value table and prints nothing: however the call
    ends, [V] and the output are as before and the policy has kept its
    shape and stays well shaped. *)
Theorem policy_improvement_keeps_values gamma g :
  let g' := (policy_improvement mdp T gamma g).1 in
  V g' = V g ∧ stdout g' = stdout g ∧ shape (pi g') = shape (pi g) ∧
  (well_shaped (pi g) → well_shaped (pi g')).
Proof.
  unfold policy_improvement. apply (for_acc_kept improvement_keeps).
  - apply improvement_keeps_refl.
  - apply improvement_keeps_trans.
  - intros s c g'. apply improve_state_keeps.
Qed.
End SweepFacts.

Section ImprovementMoreFacts.
Context `{F : PyFloat}.
Variable mdp : MDP.
Variable T : nat → nat → Z → nat → nat → num * num.
Implicit Types (g : Globals) (gamma theta : num) (s : nat * nat).

(** Improving a state either finds its action already the best one and
    changes nothing, or writes a different action and reports a change. *)
Lemma improve_state_cases gamma s changed g g' changed' :
  improve_state mdp T gamma s changed g = (g', Return changed') →
  ∃ a best_a,
    getitem2 (pi g) s = Return a ∧
    (best_action mdp T gamma s.1 s.2 g).2 = Return best_a ∧
    ((a = best_a ∧ g' = g ∧ changed' = changed) ∨
     (a ≠ best_a ∧ changed' = true)).
Proof.
  unfold improve_state. py_unfold.
  destruct (best_action_read_only mdp T gamma s.1 s.2 g) as [Hg _].
  destruct (best_action _ _ _ _ _ g) as [g1 [best_a| |]]; simpl in *;
    subst; [|done..].
  destruct (getitem2 (pi g) s) as [a| |] eqn:Ha; simpl; [|done..].
  case_bool_decide as Hne; simpl.
  - destruct (setitem2 (pi g) s best_a) as [p'| |]; simpl; [|done..].
    intros [= <- <-]. exists a, best_a. eauto.
  - intros [= <- <-]. exists a, best_a. split; [done|]. split; [done|].
    left. split; [|done]. destruct (decide (a = best_a)); [done|].
    by destruct Hne.
Qed.

Lemma improvement_loop_changed gamma xs changed g g' changed' :
  for_acc xs changed (improve_state mdp T gamma) g = (g', Return changed') →
  (changed' = changed ∧ g' = g) ∨
  (changed' = true ∧
   ∃ s a b, s ∈ xs ∧ getitem2 (pi g) s = Return a ∧
     getitem2 (pi g') s = Return b ∧ a ≠ b).
Proof.
  revert changed g. induction xs as [|x xs IH]; intros changed g Hloop.
  - simpl in Hloop. injection Hloop as <- <-. by left.
  - pose proof (policy_improvement_loop _ _ _ _ _ _ _ _ Hloop)
      as (_ & _ & Hin).
    simpl in Hloop. unfold mbind, Py_bind in Hloop.
    destruct (improve_state _ _ _ x changed g) as [g1 [c1| |]] eqn:Hx;
      [|done..].
    apply improve_state_cases
      in Hx as (a & best_a & Ha & Hbest & [(-> & -> & ->)|(Hne & ->)]).
    + destruct (IH _ _ Hloop) as [?|(-> & s & a' & b & Hs & ?)]; [by left|].
      right. split; [done|]. exists s, a', b. split; [by right|done].
    + right. split; [by destruct (IH _ _ Hloop) as [[-> _]|[-> _]]|].
      destruct (Hin x) as (b & Hb & Hpi); [left|].
      exists x, a, b. rewrite Hbest in Hb. injection Hb as <-.
      split; [left|done].
Qed.

(** X14. The flag returned by [policy_improvement] (exercise lines as
    modelled) tells the truth.  When it is [False] the globals are exactly
    as before the call; when it is [True] there is a state of
    [states_iter] whose action after the call differs from its action
    before. *)
Theorem policy_improvement_reports_change gamma g g' changed :
  policy_improvement mdp T gamma g = (g', Return changed) →
  if changed
  then ∃ s a b, s ∈ states_iter mdp ∧ getitem2 (pi g) s = Return a ∧
         getitem2 (pi g') s = Return b ∧ a ≠ b
  else g' = g.
Proof.
  intros [[-> ->]|[-> Hs]]%improvement_loop_changed; done.
Qed.

(** Where every state already holds its best action the sweep of
    [policy_improvement] changes nothing and hands its flag on. *)
Lemma improvement_loop_stable gamma xs changed g :
  (∀ s, s ∈ xs →
     ∃ b, (best_action mdp T gamma s.1 s.2 g).2 = Return b ∧
       getitem2 (pi g) s = Return b) →
  for_acc xs changed (improve_state mdp T gamma) g = (g, Return changed).
Proof.
  induction xs as [|x xs IH]; intros Hall; simpl; [done|].
  unfold mbind, Py_bind.
  assert (improve_state mdp T gamma x changed g = (g, Return changed)) as ->.
  { destruct (Hall x) as (b & Hb & Hpi); [left|].
    unfold improve_state. py_unfold.
    destruct (best_action_read_only mdp T gamma x.1 x.2 g) as [Hg _].
    destruct (best_action _ _ _ _ _ g) as [g1 o]; simpl in *; subst.
    rewrite Hpi. simpl. by rewrite bool_decide_false by (by intros ?). }
  apply IH. intros s Hs. apply Hall. by right.
Qed.

Lemma improved_is_greedy gamma g g' changed :
  policy_improvement mdp T gamma g = (g', Return changed) →
  ∀ s, s ∈ states_iter mdp →
    ∃ b, (best_action mdp T gamma s.1 s.2 g').2 = Return b ∧
      getitem2 (pi g') s = Return b.
Proof.
  intros (HV & _ & Hin)%policy_improvement_loop s Hs.
  destruct (Hin s Hs) as (b & Hb & Hpi). exists b. split; [|done].
  rewrite <-Hb. by apply best_action_read_only.
Qed.

(** X15. [policy_improvement] (exercise lines as modelled) is idempotent:
    called again right after a call that returned, it returns [False] and
    changes nothing. *)
Theorem policy_improvement_idempotent gamma g g' changed :
  policy_improvement mdp T gamma g = (g', Return changed) →
  policy_improvement mdp T gamma g' = (g', Return false).
Proof.
  intros Hloop. apply improvement_loop_stable.
  by eapply improved_is_greedy.
Qed.

(** X16. What a call of [policy_iteration] (exercise lines as modelled)
    that returns leaves behind: the globals are those of the last
    [policy_evaluation], shown by the closing lines, with the policy that
    evaluation was run for; at every state of [states_iter] the policy
    holds the best action for the final value table; and a further
    [policy_improvement] would report no change. *)
Theorem policy_iteration_returns_stable fuel gamma theta g g' :
  policy_iteration mdp T fuel gamma theta g = (g', Return tt) →
  (∃ n g1 g2, n < fuel ∧
     policy_evaluation mdp T fuel gamma theta 0 (announced n g1)
     = (g2, Return tt) ∧
     pi g2 = pi g1 ∧ g' = finished n g2) ∧
  (∀ s, s ∈ states_iter mdp →
     ∃ b, (best_action mdp T gamma s.1 s.2 g').2 = Return b ∧
       getitem2 (pi g') s = Return b) ∧
  policy_improvement mdp T gamma g' = (g', Return false).
Proof.
  intros (n & g1 & Hn & _ & Hlast)%while_true_Return. simpl in Hlast.
  apply iteration_pass_Return in Hlast
    as (g2 & g3 & changed & He & Hi & Hstop & ->).
  destruct changed; [done|]. simpl.
  pose proof (improvement_loop_changed _ _ _ _ _ _ Hi) as [[_ ->]|[? _]];
    [|done].
  pose proof (evaluation_run_keeps_pi mdp T fuel gamma theta 0
                (announced n g1)) as Hkept.
  rewrite He in Hkept. simpl in Hkept.
  assert (∀ s, s ∈ states_iter mdp →
     ∃ b, (best_action mdp T gamma s.1 s.2 (finished n g2)).2 = Return b ∧
       getitem2 (pi (finished n g2)) s = Return b) as Hgreedy.
  { intros s Hs.
    destruct (improved_is_greedy _ _ _ _ Hi s Hs) as (b & Hb & Hb').
    exists b. split; [|done]. rewrite <-Hb. by apply best_action_read_only. }
  split; [by exists n, g1, g2|]. split; [done|].
  by apply improvement_loop_stable.
Qed.
End ImprovementMoreFacts.

Section ThresholdFacts.
Context `{F : PyFloat} {E : ExactArith F}.
Variable mdp : MDP.
Variable T : nat → nat → Z → nat → nat → num * num.
Implicit Types (g : Globals) (gamma theta : num) (s : nat * nat).

Add Ring num_ring_threshold : exact_ring.
Local Open Scope num_scope.

Lemma fabs_nonneg (x : num) : 0 ≤ fabs x.
Proof.
  pose proof exact_order as HO.
  rewrite fabs_def. unfold fle. destruct (flt x 0) eqn:Hx; [|done].
  apply flt_asym. apply (fadd_lt_mono _ _ (0 - x)) in Hx.
  replace (x + (0 - x)) with 0 in Hx by ring.
  by replace (0 + (0 - x)) with (0 - x) in Hx by ring.
Qed.

Lemma fabs_zero (x : num) : fabs (x - x) = 0.
Proof.
  pose proof exact_order as HO.
  replace (x - x) with 0 by ring. rewrite fabs_def.
  by rewrite flt_irrefl.
Qed.

(** [max_diff] is never negative. *)
Lemma max_diff_nonneg (a b : ndarray num) d :
  max_diff a b = Return d → 0 ≤ d.
Proof.
  pose proof exact_order as HO.
  unfold max_diff, np.max2. intros [Hin _]%np_max_greatest.
  apply elem_of_abs_diff in Hin as (s & x & y & _ & _ & ->).
  apply fabs_nonneg.
Qed.

(** With a threshold that is not positive no pass reaches [break]. *)
Lemma evaluation_pass_goes_on gamma theta visualize_each i g g' stop :
  theta ≤ 0 →
  evaluation_pass mdp T gamma theta visualize_each i g = (g', Return stop) →
  stop = false.
Proof.
  pose proof exact_order as HO.
  intros Htheta (g0 & g1 & d & _ & _ & Hd & -> & _)%evaluation_pass_Return.
  apply max_diff_nonneg in Hd. by apply (fle_trans theta 0 d).
Qed.

(** X17. With a threshold [theta <= 0] no sweep ever satisfies
    [max_diff < theta], [max_diff] being the maximum of absolute values:
    no call of [policy_evaluation] returns, whatever the fuel. *)
Theorem policy_evaluation_needs_positive_threshold fuel gamma theta
    visualize_each g :
  theta ≤ 0 →
  (policy_evaluation mdp T fuel gamma theta visualize_each g).2 ≠ Return tt.
Proof.
  intros Htheta Hret.
  destruct (policy_evaluation _ _ _ _ _ _ _) as [g' o] eqn:Hrun.
  simpl in Hret. subst o.
  apply while_true_Return in Hrun as (n & g1 & _ & _ & Hlast).
  by apply evaluation_pass_goes_on in Hlast.
Qed.

(** X18. Hence with [theta <= 0] no call of [policy_iteration] (exercise
    lines as modelled: it hands its [theta] to [policy_evaluation])
    returns either. *)
Theorem policy_iteration_needs_positive_threshold fuel gamma theta g :
  theta ≤ 0 →
  (policy_iteration mdp T fuel gamma theta g).2 ≠ Return tt.
Proof.
  intros Htheta Hret.
  destruct (policy_iteration _ _ _ _ _ _) as [g' o] eqn:Hrun.
  simpl in Hret. subst o.
  apply while_true_Return in Hrun as (n & g1 & _ & _ & Hlast).
  apply iteration_pass_Return in Hlast as (g2 & g3 & c & He & _).
  apply while_true_Return in He as (k & g4 & _ & _ & Hpass).
  by apply evaluation_pass_goes_on in Hpass.
Qed.

(** A value table that already holds, at every state, the q-value of the
    policy's action is left as it is by a sweep. *)
Lemma sweep_fixed gamma xs g :
  (∀ s, s ∈ xs →
     ∃ a q, getitem2 (pi g) s = Return a ∧
       (q_value mdp T s.1 s.2 a gamma g).2 = Return q ∧
       getitem2 (V g) s = Return q) →
  for_ xs (evaluate_state mdp T gamma) g = (g, Return tt).
Proof.
  induction xs as [|x xs IH]; intros Hall; simpl; [done|].
  unfold mbind, Py_bind.
  assert (evaluate_state mdp T gamma x g = (g, Return tt)) as ->.
  { destruct (Hall x) as (a & q & Ha & Hq & Hv); [left|].
    unfold evaluate_state. py_unfold. rewrite Ha. simpl.
    destruct (q_value_read_only mdp T x.1 x.2 a gamma g) as [Hg _].
    destruct (q_value _ _ _ _ _ _ g) as [g1 o]; simpl in *; subst.
    destruct (getitem2_is_Return_setitem2 _ _ q _ Hv) as [v' Hset].
    rewrite Hset. simpl. rewrite (setitem2_same _ _ _ _ Hv Hset).
    by destruct g. }
  apply IH. intros s Hs. apply Hall. by right.
Qed.

Lemma getitem2_elem_of {A} (a : ndarray A) (s : nat * nat) (x : A) :
  getitem2 a s = Return x → x ∈ concat (data a).
Proof.
  unfold getitem2. destruct (data a !! s.1) as [row|] eqn:Hrow; [|done].
  destruct (row !! s.2) as [y|] eqn:Hy; [|done]. intros [= <-].
  apply list_elem_of_In, in_concat. exists row.
  rewrite <-!list_elem_of_In. eauto using list_elem_of_lookup_2.
Qed.

(** Between a table and itself the greatest difference is zero. *)
Lemma max_diff_same (a : ndarray num) s x :
  getitem2 a s = Return x → max_diff a a = Return 0.
Proof.
  pose proof exact_order as HO.
  intros Hx. unfold max_diff, np.max2.
  destruct (np.max (concat (data (np.abs_diff a a)))) as [m| |] eqn:Hm.
  - apply np_max_greatest in Hm as [Hin _].
    apply elem_of_abs_diff in Hin as (s' & y & z & Hy & Hz & ->).
    rewrite Hy in Hz. injection Hz as <-. by rewrite fabs_zero.
  - assert (fabs (x - x) ∈ concat (data (np.abs_diff a a))) as Hin
      by (apply elem_of_abs_diff; eauto 10).
    destruct (concat _); [by apply elem_of_nil in Hin|done].
  - by destruct (concat _).
Qed.

Lemma evaluation_pass_fixed gamma theta visualize_each i g g0 :
  flt 0 theta = true →
  states_iter mdp ≠ [] →
  (∀ s, s ∈ states_iter mdp →
     ∃ a q, getitem2 (pi g) s = Return a ∧
       (q_value mdp T s.1 s.2 a gamma g).2 = Return q ∧
       getitem2 (V g) s = Return q) →
  show_progress visualize_each i g = (g0, Return tt) →
  evaluation_pass mdp T gamma theta visualize_each i g
  = ({| pi := pi g; V := V g;
        stdout := stdout g0 ++ [print_policy_evaluation_finished (i + 1)] |},
     Return true).
Proof.
  intros Htheta Hstates Hall Hshow.
  destruct (show_progress_Return visualize_each i g) as [out Hshow'].
  rewrite Hshow' in Hshow. injection Hshow as <-.
  apply evaluation_pass_Return. eexists _, _, 0.
  split; [exact Hshow'|]. split.
  - apply sweep_fixed. intros s Hs. simpl.
    destruct (Hall s Hs) as (a & q & Ha & Hq & Hv). exists a, q.
    split; [done|]. split; [|done]. rewrite <-Hq.
    by apply q_value_read_only.
  - simpl. split.
    + destruct (states_iter mdp) as [|s xs] eqn:Hxs; [done|].
      destruct (Hall s) as (a & q & _ & _ & Hv); [left|].
      by eapply max_diff_same.
    + by rewrite Htheta.
Qed.

(** X19. A value table that satisfies the policy's own equations (at
    every state the entry is the q-value of the policy's action) is a
    fixed point of [policy_evaluation] (exercise lines as modelled): for a
    positive threshold and at least one state the call returns after one
    sweep, reports one step, and leaves the policy and the value table
    exactly as they were. *)
Theorem policy_evaluation_fixed_point fuel gamma theta visualize_each g :
  flt 0 theta = true →
  states_iter mdp ≠ [] →
  (∀ s, s ∈ states_iter mdp →
     ∃ a q, getitem2 (pi g) s = Return a ∧
       (q_value mdp T s.1 s.2 a gamma g).2 = Return q ∧
       getitem2 (V g) s = Return q) →
  ∃ out,
    policy_evaluation mdp T (S fuel) gamma theta visualize_each g
    = ({| pi := pi g; V := V g;
          stdout := stdout g ++ out ++ [print_policy_evaluation_finished 1] |},
       Return tt) ∧
    (visualize_each ≤ 0 → out = [])%Z.
Proof.
  intros Htheta Hstates Hall.
  destruct (show_progress_Return visualize_each 0 g) as [out Hshow].
  exists out. split.
  - unfold policy_evaluation. rewrite while_true_unfold.
    rewrite (evaluation_pass_fixed _ _ _ _ _ _ Htheta Hstates Hall Hshow).
    simpl. by rewrite <-app_assoc.
  - intros Hve. unfold show_progress in Hshow.
    rewrite bool_decide_false in Hshow by lia. simpl in Hshow.
    injection Hshow as Hout. apply (f_equal stdout) in Hout. simpl in Hout.
    apply (app_inv_head (stdout g)). by rewrite app_nil_r.
Qed.

(** X20. Where moreover the policy holds the best action of every state,
    [policy_iteration] (exercise lines as modelled) returns after a single
    pass with the policy and the value table unchanged, having printed the
    step, the one evaluation step, and the closing line with count [1]. *)
Theorem policy_iteration_fixed_point fuel gamma theta g :
  flt 0 theta = true →
  states_iter mdp ≠ [] →
  (∀ s, s ∈ states_iter mdp →
     ∃ a q, getitem2 (pi g) s = Return a ∧
       (best_action mdp T gamma s.1 s.2 g).2 = Return a ∧
       (q_value mdp T s.1 s.2 a gamma g).2 = Return q ∧
       getitem2 (V g) s = Return q) →
  ∃ out,
    policy_iteration mdp T (S fuel) gamma theta g
    = ({| pi := pi g; V := V g; stdout := stdout g ++ out |}, Return tt) ∧
    out = [print_policy_iteration_step 0;
           visualize (Some (pi g)) (Some (V g));
           plt_pause;
           print_policy_evaluation_finished 1;
           print_policy_iteration_finished 1;
           visualize (Some (pi g)) (Some (V g))].
Proof.
  intros Htheta Hstates Hall. eexists. split; [|done].
  unfold policy_iteration. rewrite while_true_unfold.
  assert (iteration_pass mdp T (S fuel) gamma theta 0 g
          = (finished 0
               {| pi := pi g; V := V g;
                  stdout := stdout (announced 0 g)
                            ++ [print_policy_evaluation_finished 1] |},
             Return true)) as ->.
  { apply iteration_pass_Return. eexists _, _, false.
    split; [|split; [|done]].
    - unfold policy_evaluation. rewrite while_true_unfold.
      rewrite (evaluation_pass_fixed gamma theta 0 0 (announced 0 g)
                 (announced 0 g)); [done..| |].
      + intros s Hs. simpl.
        destruct (Hall s Hs) as (a & q & Ha & _ & Hq & Hv). exists a, q.
        split; [done|]. split; [|done]. rewrite <-Hq.
        by apply q_value_read_only.
      + unfold show_progress. by rewrite bool_decide_false by lia.
    - unfold policy_improvement. apply improvement_loop_stable.
      intros s Hs. simpl.
      destruct (Hall s Hs) as (a & q & Ha & Hb & _). exists a.
      split; [|done]. rewrite <-Hb. by apply best_action_read_only. }
  unfold finished, announced. simpl. by rewrite <-!app_assoc.
Qed.
End ThresholdFacts.

Section OutputFacts.
Context `{F : PyFloat}.
Variable mdp : MDP.
Variable T : nat → nat → Z → nat → nat → num * num.
Implicit Types (g : Globals) (gamma theta : num) (s : nat * nat).







(** An array without entries answers every read with [IndexError]. *)
Lemma getitem2_empty {A} (a : ndarray A) ij :
  concat (data a) = [] → getitem2 a ij = Raise IndexError.
Proof.
  intros Hempty. unfold getitem2.
  destruct (data a !! ij.1) as [row|] eqn:Hrow; [|done].
  destruct (row !! ij.2) as [x|] eqn:Hx; [|done].
  assert (x ∈ concat (data a)) as Hin.
  { apply (getitem2_elem_of a ij). unfold getitem2. by rewrite Hrow, Hx. }
  rewrite Hempty in Hin. by apply elem_of_nil in Hin.
Qed.

Lemma abs_diff_empty (a b : ndarray num) :
  concat (data a) = [] → concat (data (np.abs_diff a b)) = [].
Proof.
  intros Hempty. destruct (concat (data (np.abs_diff a b))) as [|e l] eqn:Hd;
    [done|].
  assert (e ∈ concat (data (np.abs_diff a b))) as Hin by (rewrite Hd; left).
  apply elem_of_abs_diff in Hin as (s & x & y & Hx & _).
  by rewrite getitem2_empty in Hx.
Qed.

Lemma evaluate_state_empty gamma s xs g :
  states_iter mdp = s :: xs →
  concat (data (V g)) = [] →
  ∀ s', (evaluate_state mdp T gamma s' g).2 = Raise IndexError.
Proof.
  intros Hstates Hempty s'. unfold evaluate_state, q_value.
  rewrite Hstates. simpl. py_unfold. unfold getitem2 at 1.
  destruct (data (pi g) !! s'.1) as [row|]; [|done].
  destruct (row !! s'.2) as [a|]; [|done]. simpl.
  destruct s as [n1_ n2_].
  destruct (T s'.1 s'.2 a n1_ n2_) as [p r].
  by rewrite getitem2_empty.
Qed.

(** X22. On a value table without entries [policy_evaluation] raises in
    its first pass: [ValueError] from [np.max] of an empty array when the
    problem has no states, and (exercise lines as modelled) [IndexError]
    at the first state of the sweep when it has some. *)
Theorem policy_evaluation_empty_table fuel gamma theta visualize_each g :
  concat (data (V g)) = [] →
  (policy_evaluation mdp T (S fuel) gamma theta visualize_each g).2
  = Raise (match states_iter mdp with
           | [] => ValueError
           | _ :: _ => IndexError
           end).
Proof.
  intros Hempty. unfold policy_evaluation. rewrite while_true_unfold.
  destruct (show_progress_Return visualize_each 0 g) as [out Hshow].
  assert ((evaluation_pass mdp T gamma theta visualize_each 0 g).2
          = Raise (match states_iter mdp with
                   | [] => ValueError
                   | _ :: _ => IndexError
                   end)) as Hpass.
  { unfold evaluation_pass, sweep. py_unfold. rewrite Hshow. simpl.
    destruct (states_iter mdp) as [|s xs] eqn:Hstates; simpl.
    - unfold max_diff, np.max2, np.copy. by rewrite abs_diff_empty.
    - unfold mbind, Py_bind.
      pose proof (evaluate_state_empty gamma s xs
        {| pi := pi g; V := V g; stdout := stdout g ++ out |}
        Hstates Hempty s) as Hs.
      destruct (evaluate_state _ _ _ _ _) as [g1 o]. simpl in Hs.
      by subst o. }
  destruct (evaluation_pass _ _ _ _ _ _ _) as [g1 o]. simpl in Hpass.
  by subst o.
Qed.
End OutputFacts.

(** * Further sample runs *)

Section MoreWitnesses.
Import Sample Runs.
#[local] Existing Instance QcFloat.

Lemma QcFloat_truediv_int (z : Z) :
  z ≠ 0%Z → is_Some (@truediv QcFloat (of_int 1) (of_int z)).
Proof.
  intros Hz. simpl. unfold Qc_truediv.
  destruct (decide (Qc_of_Z z = 0%Qc)) as [E|]; [|eauto].
  destruct Hz. apply Z2Qc_inj. by rewrite Z2Qc_inj_0.
Qed.

Lemma mind_entries_within : entries_within (of_int 0) (of_int 10) (Q mind).
Proof.
  intros [i j] q. unfold getitem2. simpl.
  destruct i as [|[|i]]; simpl; [| |done];
    (destruct j as [|[|j]]; simpl; [| |done]); intros [= <-]; by split.
Qed.

Lemma chain_settled_fixed s :
  s ∈ states_iter chain →
  ∃ a q, getitem2 (pi chain_settled) s = Return a ∧
    (best_action chain chain_T (float_lit 9 1) s.1 s.2 chain_settled).2
    = Return a ∧
    (q_value chain chain_T s.1 s.2 a (float_lit 9 1) chain_settled).2
    = Return q ∧
    getitem2 (V chain_settled) s = Return q.
Proof.
  intros [->|[->|[]%elem_of_nil]%elem_of_cons]%elem_of_cons.
  - exists 0%Z, (0 + 1 * (1 + float_lit 9 1 * of_int 10)
                 + 0 * (0 + float_lit 9 1 * 0))%num.
    split; [reflexivity|]. split; [reflexivity|]. split; [reflexivity|].
    change (Return (Qc_of_Z 10)
            = Return (0 + 1 * (1 + float_lit 9 1 * of_int 10)
                      + 0 * (0 + float_lit 9 1 * 0))%num :> outcome Qc).
    f_equal. by apply Qc_is_canon.
  - exists 0%Z, (0 + 0 * (0 + float_lit 9 1 * of_int 10)
                 + 1 * (0 + float_lit 9 1 * 0))%num.
    split; [reflexivity|]. split; [reflexivity|]. split; [reflexivity|].
    change (Return (Qc_of_Z 0)
            = Return (0 + 0 * (0 + float_lit 9 1 * of_int 10)
                      + 1 * (0 + float_lit 9 1 * 0))%num :> outcome Qc).
    f_equal. by apply Qc_is_canon.
Qed.

Lemma plan_returns_on_built_learner_witness :
  ∃ scores,
    (plan 1 true false (after_all episode (mind, samples))).2
    = Return scores ∧
    length scores = 2.
Proof.
  apply (plan_returns_on_built_learner QcFloat_truediv_int 2 2
           (float_lit 5 1) (of_int 1) (float_lit 9 1) episode samples
           1 true false).
  lia.
Defined.

Lemma running_avg_history_witness :
  let self' := (after_all episode (mind, samples)).1 in
  (∃ news, running_avg self' = running_avg mind ++ news ∧
     length news = length (List.filter is_episode_end episode)) ∧
  (∀ episode train_mode,
     (on_episode_end episode train_mode self').2 = Return tt) ∧
  (∃ m, metrics self' = (self', Return m)).
Proof.
  apply (running_avg_history episode mind samples). discriminate.
Defined.

Lemma metrics_after_episode_end_witness :
  ∃ self',
    on_episode_end 0 true mind = (self', Return tt) ∧
    metrics self'
    = (self', Return (float_lit 1 2 * _return mind
                      + float_lit 99 2 * 0)%num) ∧
    length (running_avg self') = S (length (running_avg mind)) ∧
    _return self' = _return mind.
Proof.
  apply (metrics_after_episode_end mind 0%Z true 0%num). reflexivity.
Defined.

Lemma on_step_taken_outside_table_witness :
  (∃ e, on_step_taken 0 step_off tt mind
        = (set_return (λ r, fadd r (reward step_off)) mind, Raise e)) ∧
  (∀ x LR tgt,
     truediv (of_int (_episode_count mind)) (_decay mind) = Some x →
     fpow (_lr mind) x = Some LR →
     has_target mind step_off tgt →
     (on_step_taken 0 step_off tt mind).2 = Raise IndexError).
Proof.
  apply (on_step_taken_outside_table mind 0%Z step_off tt). reflexivity.
Defined.

Lemma observe_all_accumulates_witness :
  _return (observe_all [step_on; step_end] mind).1
  = foldl fadd (_return mind) (map reward [step_on; step_end]) ∧
  _episode_count (observe_all [step_on; step_end] mind).1
  = (_episode_count mind
     + Z.of_nat (length (List.filter is_terminal [step_on; step_end])))%Z ∧
  running_avg (observe_all [step_on; step_end] mind).1 = running_avg mind ∧
  shape (Q (observe_all [step_on; step_end] mind).1) = shape (Q mind).
Proof.
  apply (observe_all_accumulates [step_on; step_end] mind). reflexivity.
Defined.

Lemma episode_average_recorded_witness :
  ∃ self2,
    on_episode_end 0 true
      (observe_all [step_on; step_end] (on_episode_start 0 true mind).1).1
    = (self2, Return tt) ∧
    metrics self2
    = (self2,
       Return (float_lit 1 2
                 * foldl fadd 0 (map reward [step_on; step_end])
               + float_lit 99 2 * 0)%num).
Proof.
  apply (episode_average_recorded mind 0%Z true [step_on; step_end] _ 0%num).
  - reflexivity.
  - reflexivity.
Defined.

Lemma on_step_taken_keeps_bounds_witness :
  entries_within (of_int 0) (of_int 10)
    (Q (on_step_taken 0 step_on tt mind).1).
Proof.
  apply (on_step_taken_keeps_bounds (E := QcFloat_exact) mind 0%Z step_on tt
           (of_int 1) (of_int 10)).
  - apply mind_entries_within.
  - reflexivity.
  - reflexivity.
  - reflexivity.
  - reflexivity.
  - reflexivity.
  - intros x α Hx Hα.
    change (Some (1 / 1)%Qc = Some x) in Hx. injection Hx as <-.
    change (Some rate = Some α) in Hα. injection Hα as <-.
    split; reflexivity.
Defined.

Lemma greedy_table_first_maxima_witness :
  ∃ a, greedy_table lake = Return a ∧ shape a = (4, 4) ∧
    ∀ i j, i < 4 → j < 4 →
      ∃ k row qk,
        getitem2 a (i, j) = Return k ∧
        getitem (Q lake) (i * 4 + j) = Return row ∧
        row !! k = Some qk ∧
        (∀ j' q, row !! j' = Some q → fle q qk) ∧
        (∀ j' q, j' < k → row !! j' = Some q → flt q qk = true).
Proof.
  apply (greedy_table_first_maxima (O := QcFloat_order) lake 4).
  - apply init_well_shaped.
  - reflexivity.
  - lia.
Defined.

Lemma greedy_table_wrong_size_witness :
  greedy_table mind = Raise ValueError.
Proof.
  apply (greedy_table_wrong_size mind).
  - apply mind_well_shaped.
  - right. discriminate.
Defined.

Lemma policy_improvement_reports_change_witness :
  ∃ s a b, s ∈ states_iter chain ∧
    getitem2 (pi chain_leaving) s = Return a ∧
    getitem2
      (pi (policy_improvement chain chain_T (float_lit 9 1)
             chain_leaving).1) s = Return b ∧
    a ≠ b.
Proof.
  apply (policy_improvement_reports_change chain chain_T (float_lit 9 1)
           chain_leaving _ true).
  reflexivity.
Defined.

Lemma policy_improvement_idempotent_witness :
  policy_improvement chain chain_T (float_lit 9 1)
    (policy_improvement chain chain_T (float_lit 9 1) chain_leaving).1
  = ((policy_improvement chain chain_T (float_lit 9 1) chain_leaving).1,
     Return false).
Proof.
  apply (policy_improvement_idempotent chain chain_T (float_lit 9 1)
           chain_leaving _ true).
  reflexivity.
Defined.

Lemma policy_iteration_returns_stable_witness :
  let g' := (policy_iteration chain chain_T 5 (float_lit 9 1) 1%num
               chain_start).1 in
  (∃ n g1 g2, n < 5 ∧
     policy_evaluation chain chain_T 5 (float_lit 9 1) 1%num 0
       (announced n g1) = (g2, Return tt) ∧
     pi g2 = pi g1 ∧ g' = finished n g2) ∧
  (∀ s, s ∈ states_iter chain →
     ∃ b, (best_action chain chain_T (float_lit 9 1) s.1 s.2 g').2
          = Return b ∧
       getitem2 (pi g') s = Return b) ∧
  policy_improvement chain chain_T (float_lit 9 1) g' = (g', Return false).
Proof.
  apply (policy_iteration_returns_stable chain chain_T 5 (float_lit 9 1)
           1%num chain_start).
  reflexivity.
Defined.

Lemma policy_evaluation_needs_positive_threshold_witness :
  (policy_evaluation chain chain_T 5 (float_lit 9 1) 0%num 0
     chain_start).2 ≠ Return tt.
Proof.
  apply (policy_evaluation_needs_positive_threshold chain chain_T
           (E := QcFloat_exact) 5 (float_lit 9 1) 0%num 0 chain_start).
  reflexivity.
Defined.

Lemma policy_iteration_needs_positive_threshold_witness :
  (policy_iteration chain chain_T 5 (float_lit 9 1) 0%num
     chain_start).2 ≠ Return tt.
Proof.
  apply (policy_iteration_needs_positive_threshold chain chain_T
           (E := QcFloat_exact) 5 (float_lit 9 1) 0%num chain_start).
  reflexivity.
Defined.

Lemma policy_evaluation_fixed_point_witness :
  ∃ out,
    policy_evaluation chain chain_T 3 (float_lit 9 1) 1%num 0 chain_settled
    = ({| pi := pi chain_settled; V := V chain_settled;
          stdout := stdout chain_settled ++ out
                    ++ [print_policy_evaluation_finished 1] |},
       Return tt) ∧
    (0 ≤ 0 → out = [])%Z.
Proof.
  apply (policy_evaluation_fixed_point chain chain_T (E := QcFloat_exact)
           2 (float_lit 9 1) 1%num 0 chain_settled).
  - reflexivity.
  - discriminate.
  - intros s Hs.
    destruct (chain_settled_fixed s Hs) as (a & q & Ha & _ & Hq & Hv).
    exists a, q. split; [exact Ha|]. split; [exact Hq|exact Hv].
Defined.

Lemma policy_iteration_fixed_point_witness :
  ∃ out,
    policy_iteration chain chain_T 3 (float_lit 9 1) 1%num chain_settled
    = ({| pi := pi chain_settled; V := V chain_settled;
          stdout := stdout chain_settled ++ out |}, Return tt) ∧
    out = [print_policy_iteration_step 0;
           visualize (Some (pi chain_settled)) (Some (V chain_settled));
           plt_pause;
           print_policy_evaluation_finished 1;
           print_policy_iteration_finished 1;
           visualize (Some (pi chain_settled)) (Some (V chain_settled))].
Proof.
  apply (policy_iteration_fixed_point chain chain_T (E := QcFloat_exact)
           2 (float_lit 9 1) 1%num chain_settled).
  - reflexivity.
  - discriminate.
  - apply chain_settled_fixed.
Defined.


Lemma policy_evaluation_empty_table_witness :
  (policy_evaluation chain chain_T 1 (float_lit 9 1) 1%num 0 chain_empty).2
  = Raise IndexError.
Proof.
  apply (policy_evaluation_empty_table chain chain_T 0 (float_lit 9 1)
           1%num 0 chain_empty).
  reflexivity.
Defined.
End MoreWitnesses.
